(** * css-theme-plugin: stylesheet-variable extraction and loader-chain rewriting

    A shallow embedding of [src/lib/less-vars.ts] and [src/lib/index.ts].

    Conventions of the model.
    - A JavaScript string is a [string]; one [ascii] stands for one UTF-16
      code unit in the range 0..255.
    - A plain JavaScript object used as a dictionary is an association list
      in property-creation order; enumeration order is computed by
      [OwnPropertyKeys].
    - Exceptions and promise rejections are [Abrupt] completions; console
      output, file reads and parser calls are recorded in a trace.
    - Arrays that the plugin mutates in place, and [RegExp] objects, whose
      [lastIndex] a call of [test] may move, live in a store and are
      referred to by their index in it. *)

From Stdlib Require Import Ascii String List Bool Arith NArith ZArith Lia.
From stdpp Require Import base list strings sorting.
From Equations Require Import Equations.
Import ListNotations.

Local Open Scope string_scope.
Local Open Scope list_scope.

(** ** JavaScript runtime primitives *)

Module JS.

(** *** Strings *)

Definition chars (s : string) : list ascii := list_ascii_of_string s.
Definition str (l : list ascii) : string := string_of_list_ascii l.

(** [s.slice(1)]: everything after the first code unit. *)
Definition slice1 (s : string) : string :=
  match s with
  | EmptyString => EmptyString
  | String _ r => r
  end.

(** WhiteSpace and LineTerminator code units below 256, as removed by
    [String.prototype.trim]: TAB, LF, VT, FF, CR, SP, NBSP. *)
Definition is_white_space (c : ascii) : bool :=
  let n := nat_of_ascii c in
  ((9 <=? n)%nat && (n <=? 13)%nat) || (n =? 32)%nat || (n =? 160)%nat.

(** LineTerminator code units below 256 (what the regular-expression
    atom [.] refuses): LF and CR. *)
Definition is_line_terminator (c : ascii) : bool :=
  let n := nat_of_ascii c in (n =? 10)%nat || (n =? 13)%nat.

Fixpoint trim_start (l : list ascii) : list ascii :=
  match l with
  | c :: r => if is_white_space c then trim_start r else l
  | [] => []
  end.

Definition trim_end (l : list ascii) : list ascii := rev (trim_start (rev l)).

(** [s.trim()] *)
Definition trim (s : string) : string := str (trim_end (trim_start (chars s))).

Fixpoint starts_with (p l : list ascii) : bool :=
  match p, l with
  | [], _ => true
  | a :: p', b :: l' => Ascii.eqb a b && starts_with p' l'
  | _ :: _, [] => false
  end.

(** [/pat/.test(s)] for a pattern [pat] without metacharacters: does [pat]
    occur somewhere in [s]? *)
Fixpoint includes (p l : list ascii) : bool :=
  starts_with p l ||
  match l with
  | [] => false
  | _ :: r => includes p r
  end.

(** [/pat$/.test(s)] for a pattern [pat] without metacharacters. *)
Definition ends_with (p l : list ascii) : bool := starts_with (rev p) (rev l).

(** *** Plain objects as dictionaries *)

(** Own string-keyed data properties in creation order. *)
Definition Obj := list (string * string).

(** [CreateDataProperty]: overwrite the value of an existing own property
    (its position is kept) or append a new one. *)
Fixpoint define (o : Obj) (k v : string) : Obj :=
  match o with
  | [] => [(k, v)]
  | (k', v') :: r => if String.eqb k' k then (k', v) :: r else (k', v') :: define r k v
  end.

(** [o[k] = v] on an object created by [{}] with [v] a string.  Every key
    but one creates or updates an own data property.  The key [__proto__]
    reaches the accessor inherited from [Object.prototype], whose setter
    ignores a value that is neither an object nor null. *)
Definition assign (o : Obj) (k v : string) : Obj :=
  if String.eqb k "__proto__" then o else define o k v.

(** [o[k]] restricted to own properties. *)
Fixpoint get (o : Obj) (k : string) : option string :=
  match o with
  | [] => None
  | (k', v) :: r => if String.eqb k' k then Some v else get r k
  end.

Definition is_digit (c : ascii) : bool :=
  let n := nat_of_ascii c in (48 <=? n)%nat && (n <=? 57)%nat.

Fixpoint decimal (acc : N) (l : list ascii) : N :=
  match l with
  | [] => acc
  | c :: r => decimal (acc * 10 + (N_of_ascii c - 48)) r
  end.

(** An array index is a key that is the canonical decimal form of an
    integer between 0 and 2^32 - 2. *)
Definition array_index (k : string) : option N :=
  match chars k with
  | [] => None
  | c :: r =>
      if forallb is_digit (c :: r)
         && (negb (Ascii.eqb c "0") || match r with [] => true | _ => false end)
         && (length (c :: r) <=? 10)%nat
      then let n := decimal 0 (c :: r) in
           if (n <? 4294967295)%N then Some n else None
      else None
  end.

Definition is_array_index (k : string) : bool :=
  match array_index k with Some _ => true | None => false end.

Definition index_value (k : string) : N := default 0%N (array_index k).

Definition index_le (a b : string) : Prop := (index_value a <= index_value b)%N.

#[global] Instance index_le_dec : RelDecision index_le.
Proof. intros a b. unfold index_le. apply N.le_dec. Defined.

(** [OrdinaryOwnPropertyKeys]: array indices in ascending numeric order,
    then the other keys in creation order. *)
Definition OwnPropertyKeys (o : Obj) : list string :=
  let ks := map fst o in
  merge_sort index_le (List.filter is_array_index ks)
  ++ List.filter (fun k => negb (is_array_index k)) ks.

(** [Object.keys(o)]; every property of the model is enumerable. *)
Definition keys (o : Obj) : list string := OwnPropertyKeys o.

(** [{...target, ...source}] continued: copy the own enumerable properties
    of [source] onto [target] in [OwnPropertyKeys] order. *)
Definition copy_data_properties (target source : Obj) : Obj :=
  fold_left
    (fun acc k => match get source k with Some v => define acc k v | None => acc end)
    (OwnPropertyKeys source) target.

(** [{...a, ...b}] *)
Definition spread2 (a b : Obj) : Obj :=
  copy_data_properties (copy_data_properties [] a) b.

(** *** The regular expression [/(@import.*;)/g] and [replace] *)

Definition at_import : list ascii := chars "@import".

(** [.*;] tried at the start of [l]: [.] takes any code unit but a line
    terminator, [*] is greedy and gives back one code unit at a time, so
    the match ends at the last [;] of the line.  Returns the matched text
    and what follows it. *)
Fixpoint dot_star_semi (l : list ascii) : option (list ascii * list ascii) :=
  match l with
  | [] => None
  | c :: r =>
      if is_line_terminator c then None
      else match dot_star_semi r with
           | Some (m, rest) => Some (c :: m, rest)
           | None => if Ascii.eqb c ";" then Some ([c], r) else None
           end
  end.

(** [(@import.*;)] tried at the start of [l]. *)
Definition match_import (l : list ascii) : option (list ascii * list ascii) :=
  if starts_with at_import l
  then match dot_star_semi (drop (length at_import) l) with
       | Some (m, rest) => Some (at_import ++ m, rest)
       | None => None
       end
  else None.

Definition digit_value (c : ascii) : nat := nat_of_ascii c - 48.

(** [GetSubstitution] for a pattern with one capture group and no named
    groups: expands [$$], [$&], [$`], [$'], [$1] and [$01] in the
    replacement template; any other [$] stays as it is. *)
Fixpoint GetSubstitution (matched before after capture1 tmpl : list ascii) : list ascii :=
  match tmpl with
  | [] => []
  | c :: t1 =>
      if Ascii.eqb c "$" then
        match t1 with
        | [] => [c]
        | d1 :: t2 =>
            if Ascii.eqb d1 "$" then d1 :: GetSubstitution matched before after capture1 t2
            else if Ascii.eqb d1 "&" then matched ++ GetSubstitution matched before after capture1 t2
            else if Ascii.eqb d1 "`" then before ++ GetSubstitution matched before after capture1 t2
            else if Ascii.eqb d1 "'" then after ++ GetSubstitution matched before after capture1 t2
            else if is_digit d1 then
              let one_digit :=
                if (digit_value d1 =? 1)%nat
                then capture1 ++ GetSubstitution matched before after capture1 t2
                else c :: d1 :: GetSubstitution matched before after capture1 t2 in
              match t2 with
              | [] => one_digit
              | d2 :: t3 =>
                  if is_digit d2 then
                    let nn := (10 * digit_value d1 + digit_value d2)%nat in
                    if (1 <? nn)%nat then one_digit
                    else if (nn =? 1)%nat
                         then capture1 ++ GetSubstitution matched before after capture1 t3
                         else c :: d1 :: d2 :: GetSubstitution matched before after capture1 t3
                  else one_digit
              end
            else c :: GetSubstitution matched before after capture1 t1
        end
      else c :: GetSubstitution matched before after capture1 t1
  end.

Lemma dot_star_semi_split l m rest :
  dot_star_semi l = Some (m, rest) -> l = m ++ rest /\ m <> [].
Proof.
  revert m rest; induction l as [|c r IH]; intros m rest; simpl; [discriminate|].
  destruct (is_line_terminator c); [discriminate|].
  destruct (dot_star_semi r) as [[m' rest']|].
  - intros [= <- <-]. destruct (IH _ _ eq_refl) as [-> _]. split; [reflexivity|discriminate].
  - destruct (Ascii.eqb c ";"); [|discriminate].
    intros [= <- <-]. split; [reflexivity|discriminate].
Qed.

Lemma starts_with_split p l :
  starts_with p l = true -> l = p ++ drop (length p) l.
Proof.
  revert l; induction p as [|a p IH]; intros [|b l]; simpl; try reflexivity; try discriminate.
  intros H. apply andb_true_iff in H as [Hab Hp].
  apply Ascii.eqb_eq in Hab as ->. f_equal. apply IH, Hp.
Qed.

Lemma match_import_split l m rest :
  match_import l = Some (m, rest) -> l = m ++ rest /\ length rest < length l.
Proof.
  unfold match_import. destruct (starts_with at_import l) eqn:Hp; [|discriminate].
  destruct (dot_star_semi _) as [[m' rest']|] eqn:Hd; [|discriminate].
  intros [= <- <-]. apply dot_star_semi_split in Hd as [Hd _].
  apply starts_with_split in Hp. rewrite Hd in Hp.
  split; [exact Hp|].
  rewrite Hp, !length_app. simpl. lia.
Qed.

(** [s.replace(/(@import.*;)/g, tmpl)]: the matches are taken from left to
    right, each search resuming where the previous match ended; [before]
    is the part of the subject already passed. *)
Equations? replace_from (tmpl before s : list ascii) : list ascii by wf (length s) lt :=
replace_from tmpl before [] := [];
replace_from tmpl before (c :: r) with Logic.inspect (match_import (c :: r)) := {
  | exist _ (Some (m, rest)) H =>
      GetSubstitution m before rest m tmpl ++ replace_from tmpl (before ++ m) rest
  | exist _ None _ => c :: replace_from tmpl (before ++ [c]) r }.
Proof.
  apply match_import_split in H as [_ H]. exact H.
Qed.

Definition replace_imports (s tmpl : string) : string :=
  str (replace_from (chars tmpl) [] (chars s)).

(** [/^@import/.test(s)] *)
Definition test_starts_import (s : string) : bool := starts_with at_import (chars s).

(** *** Arrays of strings *)

(** [Array.prototype.join] with the separator [,]; this is what
    [ToString] makes of an array. *)
Fixpoint join (elements : list string) : string :=
  match elements with
  | [] => ""
  | [x] => x
  | x :: rest => x +:+ "," +:+ join rest
  end.

(** *** [Object.keys] of an object known by its keys *)

(** The enumeration order of the keys [ks], given in creation order. *)
Definition ordered_keys (ks : list string) : list string :=
  merge_sort index_le (List.filter is_array_index ks)
  ++ List.filter (fun k => negb (is_array_index k)) ks.

(** *** [JSON.stringify] of dictionaries of strings *)

Definition hex_digit (n : nat) : ascii :=
  nth n (chars "0123456789abcdef") "0"%char.

(** [QuoteJSONString], one code unit at a time: the two-character escapes,
    [\u00xx] for the other control characters, the code unit itself
    otherwise. *)
Definition quote_unit (c : ascii) : list ascii :=
  let n := nat_of_ascii c in
  if (n =? 8)%nat then chars "\b"
  else if (n =? 9)%nat then chars "\t"
  else if (n =? 10)%nat then chars "\n"
  else if (n =? 12)%nat then chars "\f"
  else if (n =? 13)%nat then chars "\r"
  else if (n =? 34)%nat then ["\"%char; c]
  else if (n =? 92)%nat then ["\"%char; c]
  else if (n <? 32)%nat
       then chars "\u00" ++ [hex_digit (n / 16); hex_digit (n mod 16)]
       else [c].

Definition QuoteJSONString (s : string) : list ascii :=
  "034"%char :: flat_map quote_unit (chars s) ++ ["034"%char].

(** The members of [SerializeJSONObject], joined by commas. *)
Fixpoint join_members (members : list (list ascii)) : list ascii :=
  match members with
  | [] => []
  | [m] => m
  | m :: rest => m ++ ","%char :: join_members rest
  end.

(** [JSON.stringify(o)] for a dictionary of strings. *)
Definition stringify_dictionary (o : Obj) : list ascii :=
  "{"%char ::
  join_members
    (omap (fun k => match get o k with
                    | Some v => Some (QuoteJSONString k ++ ":"%char :: QuoteJSONString v)
                    | None => None
                    end)
          (OwnPropertyKeys o))
  ++ ["}"%char].

(** *** The regular expression [/(\(\s*\(\s*\)\s*=>\s*\{)/] and [replace] *)

(** One literal code unit of a pattern. *)
Definition eat (c : ascii) (l : list ascii) : option (list ascii) :=
  match l with
  | x :: r => if Ascii.eqb x c then Some r else None
  | [] => None
  end.

(** The pattern tried at the start of [l]; [\s*] is [trim_start], and what
    follows each [\s*] is not white space, so nothing is given back.
    Returns the matched text and what follows it. *)
Definition match_arrow (l : list ascii) : option (list ascii * list ascii) :=
  r1 ← eat "(" l;
  r2 ← eat "(" (trim_start r1);
  r3 ← eat ")" (trim_start r2);
  r4 ← eat "=" (trim_start r3);
  r5 ← eat ">" r4;
  r6 ← eat "{" (trim_start r5);
  Some (take (length l - length r6) l, r6).

(** [s.replace(/(\(\s*\(\s*\)\s*=>\s*\{)/, tmpl)]: only the first match is
    replaced. *)
Fixpoint replace_first_from (tmpl before s : list ascii) : list ascii :=
  match s with
  | [] => []
  | c :: r =>
      match match_arrow s with
      | Some (m, rest) => GetSubstitution m before rest m tmpl ++ rest
      | None => c :: replace_first_from tmpl (before ++ [c]) r
      end
  end.

Definition replace_arrow (s tmpl : string) : string :=
  str (replace_first_from (chars tmpl) [] (chars s)).

End JS.

(** ** Effects: completions and the trace of observable events *)

Inductive Error : Type :=
| FileReadError (path : string)
| ParseError (text : string)
| TypeError (msg : string).

Inductive Completion (A : Type) : Type :=
| Normal (a : A)
| Abrupt (e : Error).
Arguments Normal {A} a.
Arguments Abrupt {A} e.

Inductive Event : Type :=
| ReadFile (path : string)
| LessParse (text : string)
| ConsoleError (label : string) (e : Error).

(** A computation run to completion: what it did and how it ended.  For an
    [async] function the completion is the settlement of its promise. *)
Definition Eff (A : Type) : Type := list Event * Completion A.

#[global] Instance Eff_ret : MRet Eff := fun A a => ([], Normal a).

#[global] Instance Eff_bind : MBind Eff := fun A B f m =>
  match m with
  | (t, Normal a) => let '(t', c) := f a in (t ++ t', c)
  | (t, Abrupt e) => (t, Abrupt e)
  end.

Definition throw {A : Type} (e : Error) : Eff A := ([], Abrupt e).

Definition emit (ev : Event) : Eff unit := ([ev], Normal tt).

(** [try { body } catch (error) { handler }] *)
Definition try_catch {A : Type} (body : Eff A) (handler : Error -> Eff A) : Eff A :=
  match body with
  | (t, Normal a) => (t, Normal a)
  | (t, Abrupt e) => let '(t', c) := handler e in (t ++ t', c)
  end.

Definition trace {A : Type} (m : Eff A) : list Event := fst m.
Definition completion {A : Type} (m : Eff A) : Completion A := snd m.

(** ** Data of the plugin *)

(** A top-level node of the tree produced by the stylesheet parser is of
    type [any]; the loop of [parseLessVariables] reads [rule.name] and
    [rule.value] of it. *)

(** [rule.name].  A variable declaration ([@a: red;]) and an at-rule have a
    string.  A property declaration ([color: red;]) has an array of the
    parts of its name, each part known here by the text that [ToString]
    gives for it.  A comment, a rule set, an import or a mixin call has no
    [name]. *)
Inductive NodeName : Type :=
| string_name (s : string)
| array_name (elements : list string)
| no_name.

(** [rule.value]: a node, known by the text that its [toCSS()] returns; a
    value that has no [toCSS], as the text of a comment; or none. *)
Inductive NodeValue : Type :=
| value_node (css : string)
| value_without_toCSS
| value_undefined.

Record Node : Type := { name : NodeName; value : NodeValue }.

(** The parsed tree; [rules] may be missing ([rules?.forEach]). *)
Record Root : Type := { rules : option (list Node) }.

Inductive Theme : Type := dark | light.

Record ThemePluginOptions : Type := {
  root : string;
  themeDir : string;
  darkFileName : string;
  lightFileName : string;
  themeClassPre : string;
  initTheme : Theme
}.

Record ThemeVars : Type := { vars_light : JS.Obj; vars_dark : JS.Obj }.

(** Clears every section variable that the statement at hand does not
    mention, so that automation cannot make the proof depend on it. *)
Ltac isolate := repeat match goal with x : _ |- _ => clear x end.

Section Plugin.

Set Default Proof Using "Type".

(** The host environment: the file system, the stylesheet parser and the
    path functions of the runtime. *)
Variable readFileSync : string -> option string.
Variable less_parse : string -> option Root.
Variable path_resolve : string -> string -> string.
Variable cwd : string.

(** When both extractions are rejected by the parser, which rejection
    reaches [Promise.all] first is up to the parser's scheduling. *)
Variable dark_parse_settles_first : bool.

Definition defaultOptions : ThemePluginOptions :=
  {| root := cwd;
     themeClassPre := "antd-theme";
     themeDir := "src/theme";
     darkFileName := "dark.less";
     lightFileName := "light.less";
     initTheme := dark |}.

(** *** less-vars.ts *)

Definition fs_readFileSync (filePath : string) : Eff string :=
  _ ← emit (ReadFile filePath);
  match readFileSync filePath with
  | Some text => mret text
  | None => throw (FileReadError filePath)
  end.

Definition less_parse_async (fileContent : string) : Eff Root :=
  _ ← emit (LessParse fileContent);
  match less_parse fileContent with
  | Some all => mret all
  | None => throw (ParseError fileContent)
  end.

(** [rule.name.slice(1)], used as a property key: the string without its
    first code unit; for an array, the elements after the first, which as
    a key are joined with commas; a [TypeError] when there is no [name]. *)
Definition name_slice1 (n : NodeName) : Completion string :=
  match n with
  | string_name s => Normal (JS.slice1 s)
  | array_name elements => Normal (JS.join (tail elements))
  | no_name =>
      Abrupt (TypeError "Cannot read properties of undefined (reading 'slice')")
  end.

(** [rule.value.toCSS()] *)
Definition value_toCSS (v : NodeValue) : Completion string :=
  match v with
  | value_node css => Normal css
  | value_without_toCSS => Abrupt (TypeError "rule.value.toCSS is not a function")
  | value_undefined =>
      Abrupt (TypeError "Cannot read properties of undefined (reading 'toCSS')")
  end.

(** The body of the [forEach] callback: the key is computed, then the
    value, then the assignment is made. *)
Definition collect (variables : JS.Obj) (rule : Node) : Completion JS.Obj :=
  match name_slice1 (name rule) with
  | Normal key =>
      match value_toCSS (value rule) with
      | Normal css => Normal (JS.assign variables key css)
      | Abrupt e => Abrupt e
      end
  | Abrupt e => Abrupt e
  end.

(** [forEach] over the nodes: an exception ends the loop. *)
Fixpoint forEach_collect (l : list Node) (variables : JS.Obj) : Completion JS.Obj :=
  match l with
  | [] => Normal variables
  | rule :: rest =>
      match collect variables rule with
      | Normal variables' => forEach_collect rest variables'
      | Abrupt e => Abrupt e
      end
  end.

(** [rules?.forEach(...)], then [variables]. *)
Definition forEach_rules (rs : option (list Node)) (variables : JS.Obj)
  : Completion JS.Obj :=
  match rs with
  | Some l => forEach_collect l variables
  | None => Normal variables
  end.

Definition parseLessVariables (filePath : string) : Eff JS.Obj :=
  try_catch
    (fileContent ← fs_readFileSync filePath;
     all ← less_parse_async fileContent;
     ([], forEach_rules (rules all) []))
    (fun error =>
       _ ← emit (ConsoleError "Error parsing Less file:" error);
       throw error).

Definition lessToJS := parseLessVariables.

(** *** index.ts: theme variables and the override block *)

(** An extraction is suspended at [await less.parse(...)]: what it does up
    to and including the call of the parser happens when the function is
    called, the rest when the parse has settled.  The first list holds the
    former, the second the latter; an extraction that does not reach the
    parser has nothing left for later. *)
Fixpoint until_await (t : list Event) : list Event * list Event :=
  match t with
  | [] => ([], [])
  | LessParse text :: rest => ([LessParse text], rest)
  | ev :: rest => (ev :: fst (until_await rest), snd (until_await rest))
  end.

(** [Promise.all] of the two extractions.  Both are called, dark first, and
    each runs up to its await; what is left of each runs when its parse
    has settled, in the order in which the parses settle.  When both
    reject, the first rejection wins: a failed read rejects before anything
    else runs. *)
Definition Promise_all2 (p q : Eff JS.Obj) : Eff (JS.Obj * JS.Obj) :=
  (fst (until_await (trace p)) ++ fst (until_await (trace q)) ++
   (if dark_parse_settles_first
    then snd (until_await (trace p)) ++ snd (until_await (trace q))
    else snd (until_await (trace q)) ++ snd (until_await (trace p))),
   match completion p, completion q with
   | Normal a, Normal b => Normal (a, b)
   | Abrupt e, Normal _ => Abrupt e
   | Normal _, Abrupt e => Abrupt e
   | Abrupt (FileReadError f), Abrupt _ => Abrupt (FileReadError f)
   | Abrupt _, Abrupt (FileReadError f) => Abrupt (FileReadError f)
   | Abrupt e1, Abrupt e2 => Abrupt (if dark_parse_settles_first then e1 else e2)
   end).

Definition getThemeVars (options : ThemePluginOptions) : Eff ThemeVars :=
  let basePath := path_resolve (root options) (themeDir options) in
  '(d, l) ← Promise_all2
              (lessToJS (path_resolve basePath (darkFileName options)))
              (lessToJS (path_resolve basePath (lightFileName options)));
  mret {| vars_light := l; vars_dark := d |}.

Definition getLessVariables (options : ThemePluginOptions) : Eff (list (string * string)) :=
  tv ← getThemeVars options;
  mret (map (fun key => (key, "~'var(--" +:+ themeClassPre options +:+ "-" +:+ key +:+ ")'"))
            (JS.keys (JS.spread2 (vars_light tv) (vars_dark tv)))).

Definition lessDefaultAddictionData (options : ThemePluginOptions) : Eff string :=
  variables ← getLessVariables options;
  mret (fold_left (fun pre kv => pre +:+ "@" +:+ fst kv +:+ ":" +:+ snd kv +:+ ";")
                  variables "").

(** *** index.ts: the content-prepend function *)

Variable LoaderContext : Type.

(** A value of the [additionalData] option: a string, a function supplied
    by the user, or a function made by [getLessAddictionData], which
    remembers the plugin options and the value it was made from. *)
Inductive AdditionalData : Type :=
| AD_string (s : string)
| AD_function (f : string -> LoaderContext -> Completion string)
| AD_closure (options : ThemePluginOptions) (originData : AdditionalData).

(** The last three statements of the returned function: where the
    override block [vars] goes in [newContent]. *)
Definition place (vars newContent : string) : string :=
  if JS.test_starts_import (JS.trim newContent)
  then JS.replace_imports newContent ("$1" +:+ vars)
  else vars +:+ newContent.

(** [isFunc ? await originData(content, context) : `${originData}${content}`],
    and for a function made by [getLessAddictionData] the body of that
    function. *)
Fixpoint originContent (originData : AdditionalData) (content : string)
    (context : LoaderContext) : Eff string :=
  match originData with
  | AD_string s => mret (s +:+ content)
  | AD_function f => ([], f content context)
  | AD_closure options inner =>
      vars ← lessDefaultAddictionData options;
      newContent ← originContent inner content context;
      mret (place vars newContent)
  end.

(** The function returned by [getLessAddictionData(originData)], applied to
    [content] and [context]. *)
Definition getLessAddictionData (options : ThemePluginOptions)
    (originData : AdditionalData) (content : string) (context : LoaderContext) : Eff string :=
  vars ← lessDefaultAddictionData options;
  newContent ← originContent originData content context;
  mret (place vars newContent).

(** *** index.ts: loader descriptors and the rules of the build *)

(** The [options] of a loader: [additionalData], if any, and the entries
    under other names, which the plugin copies as they are. *)
Record LoaderOptions : Type := {
  additionalData : option AdditionalData;
  otherOptions : list (string * string)
}.

(** An element of a rule's [use]: a loader name, a function (known here by
    its source text, which is what a regular expression sees of it) or an
    object with [loader] and [options]. *)
Inductive UseItem : Type :=
| UseString (s : string)
| UseFunction (source : string)
| UseObject (loader : option string) (options : option LoaderOptions).

(** The [use] of a rule: an array, held in the store, or a single value
    ([None] is [undefined]). *)
Inductive RuleUse : Type :=
| use_single (u : option UseItem)
| use_array (a : nat).

(** A [RegExp] object as [test('index.less')] sees it: whether it has the
    flag [g] or [y], its [lastIndex], and what matching does on the string
    ['index.less']: [exec_from i] is the index at which the match ends that
    is found when matching starts at index [i], if one is found. *)
Record RegExp : Type := {
  global_or_sticky : bool;
  lastIndex : nat;
  exec_from : nat -> option nat
}.

(** The [test] of a rule: a [RegExp], held in the store, or a value that
    is no [RegExp] (a string, a function, nothing). *)
Inductive RuleTest : Type :=
| test_RegExp (r : nat)
| test_other.

Record RuleSetRule : Type := { test : RuleTest; use : RuleUse }.

(** [compiler.options.module.rules], each position holding a rule object
    of its own, and the arrays and [RegExp] objects the rules refer to;
    two rules may refer to the same array or to the same [RegExp]. *)
Record Store : Type := {
  module_rules : list RuleSetRule;
  arrays : list (list UseItem);
  regexps : list RegExp
}.

(** [require.resolve], for a module that is installed, and [__dirname]. *)
Variable require_resolve : string -> string.
Variable dirname : string.

Definition loaderPath : string := path_resolve dirname "theme-var-loader.cjs".

Definition options_entries (o : ThemePluginOptions) : list (string * string) :=
  [("root", root o); ("themeClassPre", themeClassPre o); ("themeDir", themeDir o);
   ("darkFileName", darkFileName o); ("lightFileName", lightFileName o);
   ("initTheme", match initTheme o with dark => "dark" | light => "light" end)].

(** [{ loader: loaderPath, options: this.options }] *)
Definition loader (options : ThemePluginOptions) : UseItem :=
  UseObject (Some loaderPath)
            (Some {| additionalData := None; otherOptions := options_entries options |}).

(** What a regular expression tests when handed [loadInfo]. *)
Definition ToString (loadInfo : option UseItem) : string :=
  match loadInfo with
  | None => "undefined"
  | Some (UseString s) => s
  | Some (UseFunction source) => source
  | Some (UseObject _ _) => "[object Object]"
  end.

(** [loadInfo?.options?.additionalData || ''] *)
Definition userAdditionalData (o : option LoaderOptions) : AdditionalData :=
  match o with
  | Some {| additionalData := Some ad |} => ad
  | _ => AD_string ""
  end.

Definition formatLessLoader (options : ThemePluginOptions) (loadInfo : option UseItem)
  : Completion UseItem :=
  if JS.ends_with (JS.chars "less-loader") (JS.chars (ToString loadInfo)) then
    Normal (UseObject (Some (require_resolve "less-loader"))
              (Some {| additionalData := Some (AD_closure options (AD_string ""));
                       otherOptions := [] |}))
  else
    match loadInfo with
    | Some (UseString s) => Normal (UseString s)
    | Some (UseFunction f) => Normal (UseFunction f)
    | Some (UseObject l o) =>
        Normal (UseObject l
                  (Some {| additionalData := Some (AD_closure options (userAdditionalData o));
                           otherOptions := match o with
                                           | Some lo => otherOptions lo
                                           | None => []
                                           end |}))
    | None => Abrupt (TypeError "Cannot read properties of undefined (reading 'loader')")
    end.

(** The test of [use.some(...)]: a step that is neither a string nor a
    function and whose [loader] contains [theme-var-loader]. *)
Definition is_injected (item : UseItem) : bool :=
  match item with
  | UseObject l _ => JS.includes (JS.chars "theme-var-loader") (JS.chars (default "" l))
  | _ => false
  end.

(** [use[i]] *)
Definition array_get (items : list UseItem) (i : Z) : option UseItem :=
  if (i <? 0)%Z then None else items !! Z.to_nat i.

(** [use[i] = x] for [i] inside the array; for a negative [i] the elements
    stay as they are. *)
Definition array_set (items : list UseItem) (i : Z) (x : UseItem) : list UseItem :=
  if (i <? 0)%Z then items else <[Z.to_nat i := x]> items.

(** [use.splice(i, 0, x)] *)
Definition splice_in (items : list UseItem) (i : Z) (x : UseItem) : list UseItem :=
  let len := Z.of_nat (length items) in
  let start := Z.to_nat (if (i <? 0)%Z then Z.max (len + i) 0 else Z.min i len) in
  take start items ++ x :: drop start items.

Definition set_use (r : RuleSetRule) (u : RuleUse) : RuleSetRule :=
  {| test := test r; use := u |}.

(** The callback of [lessRules.forEach], run on the rule at position [i].
    The positions come from [lessRules] and the array references from the
    rules, so both lookups succeed; a reference outside the store would
    read as an empty array. *)
Definition rewriteRule (options : ThemePluginOptions) (st : Store) (i : nat)
  : Store * Completion unit :=
  match module_rules st !! i with
  | None => (st, Normal tt)
  | Some ruleItem =>
      match use ruleItem with
      | use_single (Some (UseString s)) =>
          if JS.includes (JS.chars "less-loader") (JS.chars s) then
            match formatLessLoader options (Some (UseString s)) with
            | Normal w =>
                ({| module_rules :=
                      <[i := set_use ruleItem (use_array (length (arrays st)))]> (module_rules st);
                    arrays := arrays st ++ [[loader options; w]];
                    regexps := regexps st |}, Normal tt)
            | Abrupt e => (st, Abrupt e)
            end
          else (st, Normal tt)
      | use_single _ => (st, Normal tt)
      | use_array a =>
          let items := default [] (arrays st !! a) in
          if existsb is_injected items then (st, Normal tt)
          else
            let lessLoaderIndex := (Z.of_nat (length items) - 1)%Z in
            match formatLessLoader options (array_get items lessLoaderIndex) with
            | Normal w =>
                let items' := splice_in (array_set items lessLoaderIndex w)
                                        lessLoaderIndex (loader options) in
                ({| module_rules := module_rules st;
                    arrays := <[a := items']> (arrays st);
                    regexps := regexps st |}, Normal tt)
            | Abrupt e => (st, Abrupt e)
            end
      end
  end.

Definition set_lastIndex (re : RegExp) (i : nat) : RegExp :=
  {| global_or_sticky := global_or_sticky re; lastIndex := i; exec_from := exec_from re |}.

(** [re.test('index.less')].  Without the flags [g] and [y] matching starts
    at 0 and [lastIndex] is left alone.  With one of them matching starts
    at [lastIndex], which then becomes the end of the match, or 0 when
    there is no match or [lastIndex] lies behind the end of the string. *)
Definition RegExp_test (re : RegExp) : bool * RegExp :=
  if global_or_sticky re then
    if (String.length "index.less" <? lastIndex re)%nat then (false, set_lastIndex re 0)
    else
      match exec_from re (lastIndex re) with
      | Some e => (true, set_lastIndex re e)
      | None => (false, set_lastIndex re 0)
      end
  else
    (match exec_from re 0 with Some _ => true | None => false end, re).

(** [Object.prototype.toString.call(item.test) === '[object RegExp]' &&
    item.test.test('index.less')], given the [RegExp] objects of the store:
    the answer and the objects after the call. *)
Definition test_matches_less (res : list RegExp) (item : RuleSetRule)
  : bool * list RegExp :=
  match test item with
  | test_RegExp r =>
      match res !! r with
      | Some re => (fst (RegExp_test re), <[r := snd (RegExp_test re)]> res)
      | None => (false, res)
      end
  | test_other => (false, res)
  end.

(** [filter] over the rules from position [i] on: the positions of the
    rules that qualify, and the [RegExp] objects after all the tests. *)
Fixpoint filter_from (i : nat) (rules : list RuleSetRule) (res : list RegExp)
  : list nat * list RegExp :=
  match rules with
  | [] => ([], res)
  | item :: rest =>
      let answer := test_matches_less res item in
      let others := filter_from (S i) rest (snd answer) in
      (if fst answer then i :: fst others else fst others, snd others)
  end.

(** [allRules.filter(...)] *)
Definition lessRules (st : Store) : list nat * list RegExp :=
  filter_from 0 (module_rules st) (regexps st).

Definition set_regexps (st : Store) (res : list RegExp) : Store :=
  {| module_rules := module_rules st; arrays := arrays st; regexps := res |}.

(** [forEach]: an exception ends the loop and leaves what was done. *)
Fixpoint forEach (f : Store -> nat -> Store * Completion unit) (l : list nat) (st : Store)
  : Store * Completion unit :=
  match l with
  | [] => (st, Normal tt)
  | i :: l' =>
      match f st i with
      | (st', Normal _) => forEach f l' st'
      | (st', Abrupt e) => (st', Abrupt e)
      end
  end.

(** The [environment] hook of [apply]. *)
Definition apply_environment (options : ThemePluginOptions) (st : Store)
  : Store * Completion unit :=
  forEach (rewriteRule options) (fst (lessRules st)) (set_regexps st (snd (lessRules st))).

(** *** index.ts: the constructor *)

(** The options a user passes; a field that is given holds a value of its
    type. *)
Record UserOptions : Type := {
  user_root : option string;
  user_themeDir : option string;
  user_darkFileName : option string;
  user_lightFileName : option string;
  user_themeClassPre : option string;
  user_initTheme : option Theme
}.

(** [{ ...defaultOptions, ...userOptions }] *)
Definition CSSThemePlugin (userOptions : option UserOptions) : ThemePluginOptions :=
  match userOptions with
  | None => defaultOptions
  | Some u =>
      {| root := default (root defaultOptions) (user_root u);
         themeDir := default (themeDir defaultOptions) (user_themeDir u);
         darkFileName := default (darkFileName defaultOptions) (user_darkFileName u);
         lightFileName := default (lightFileName defaultOptions) (user_lightFileName u);
         themeClassPre := default (themeClassPre defaultOptions) (user_themeClassPre u);
         initTheme := default (initTheme defaultOptions) (user_initTheme u) |}
  end.

(** *** index.ts: the [processAssets] hook *)

(** The value of [compiler.options.antdThemeCache]: what this hook stored
    there, or a value of the host, known by the text that
    [JSON.stringify] gives for it. *)
Inductive ThemeCache : Type :=
| cache_vars (tv : ThemeVars)
| cache_host (json : string).

(** [JSON.stringify(themeCache)] *)
Definition stringify_cache (c : ThemeCache) : string :=
  match c with
  | cache_vars tv =>
      JS.str ("{"%char :: JS.QuoteJSONString "light" ++ ":"%char ::
              JS.stringify_dictionary (vars_light tv) ++ ","%char ::
              JS.QuoteJSONString "dark" ++ ":"%char ::
              JS.stringify_dictionary (vars_dark tv) ++ ["}"%char])
  | cache_host json => json
  end.

(** The name of a chunk. *)
Inductive ChunkName : Type :=
| name_string (s : string)
| name_undefined
| name_null.

Record Chunk : Type := { chunk_name : ChunkName; chunk_files : list string }.

(** What the hook reads and writes: the keys of [compiler.options.entry]
    in creation order, the cache ([None] when it is missing or falsy), the
    chunks of the compilation and its assets, each known by its text. *)
Record Build : Type := {
  entry_keys : list string;
  antdThemeCache : option ThemeCache;
  chunks : list Chunk;
  assets : JS.Obj
}.

(** How the hook ends: it calls [callback], or its promise is rejected. *)
Inductive Settled : Type :=
| callback_called
| rejected (e : Error)
| rejected_entry_not_found.

(** [item.name === entryName] *)
Definition name_is (entryName : option string) (item : Chunk) : bool :=
  match chunk_name item, entryName with
  | name_string s, Some e => String.eqb s e
  | name_undefined, None => true
  | _, _ => false
  end.

Definition scriptContent (options : ThemePluginOptions) (themeCache : ThemeCache) : string :=
  "
          (function(){
             const el = document.getElementsByTagName('body')[0];
             window.THEMEVARS = " +:+ stringify_cache themeCache +:+
  ";
             window.changeGlobalTheme = function(isDark){
               if (el && el.length) {
                 el[0].setAttribute('class', '" +:+ (themeClassPre options +:+ "-") +:+
  "' + (isDark ? 'dark' : 'light'));
               }
             };
             if(el) changeGlobalTheme(" +:+ match initTheme options with dark => "true" | light => "false" end +:+
  ");
          })()
        ".

Definition set_assets (b : Build) (a : JS.Obj) : Build :=
  {| entry_keys := entry_keys b; antdThemeCache := antdThemeCache b;
     chunks := chunks b; assets := a |}.

Definition set_cache (b : Build) (c : ThemeCache) : Build :=
  {| entry_keys := entry_keys b; antdThemeCache := Some c;
     chunks := chunks b; assets := assets b |}.

(** The part of the hook that follows the cache. *)
Definition spliceEntry (options : ThemePluginOptions) (themeCache : ThemeCache) (b : Build)
  : Build * Settled :=
  let entryName := head (JS.ordered_keys (entry_keys b)) in
  match find (name_is entryName) (chunks b) with
  | None => (b, rejected_entry_not_found)
  | Some chunkItem =>
      match find (fun item => JS.ends_with (JS.chars "js") (JS.chars item))
                 (chunk_files chunkItem) with
      | None => (b, callback_called)
      | Some assetsName =>
          match JS.get (assets b) assetsName with
          | None =>
              (b, rejected
                    (TypeError "Cannot read properties of undefined (reading 'source')"))
          | Some entryContent =>
              let newEntry :=
                JS.replace_arrow entryContent ("$1" +:+ scriptContent options themeCache) in
              (set_assets b (JS.define (assets b) assetsName newEntry), callback_called)
          end
      end
  end.

(** The callback tapped on [processAssets]. *)
Definition processAssets (options : ThemePluginOptions) (b : Build)
  : list Event * (Build * Settled) :=
  match antdThemeCache b with
  | Some themeCache => ([], spliceEntry options themeCache b)
  | None =>
      match getThemeVars options with
      | (t, Normal tv) => (t, spliceEntry options (cache_vars tv) (set_cache b (cache_vars tv)))
      | (t, Abrupt e) => (t, (b, rejected e))
      end
  end.

(** ** Vocabulary of the statements *)

(** [mem k ks]: the name [k] is one of [ks]. *)
Definition mem (k : string) (ks : list string) : bool := existsb (String.eqb k) ks.

(** A declaration: a node that has a string for its name and a value that
    renders, as every variable declaration has. *)
Record Declaration : Type := { declared : string; rendered : string }.

Definition node_of (d : Declaration) : Node :=
  {| name := string_name (declared d); value := value_node (rendered d) |}.

(** The key under which a declaration is stored, and the map after the
    assignment that the loop makes for it. *)
Definition key_of (d : Declaration) : string := JS.slice1 (declared d).

Definition store_declaration (variables : JS.Obj) (d : Declaration) : JS.Obj :=
  JS.assign variables (key_of d) (rendered d).

(** The paths of the two variant files. *)
Definition darkPath (options : ThemePluginOptions) : string :=
  path_resolve (path_resolve (root options) (themeDir options)) (darkFileName options).

Definition lightPath (options : ThemePluginOptions) : string :=
  path_resolve (path_resolve (root options) (themeDir options)) (lightFileName options).

(** One declaration of the override block, and the block for a list of names. *)
Definition declaration (prefix key : string) : string :=
  "@" +:+ key +:+ ":" +:+ ("~'var(--" +:+ prefix +:+ "-" +:+ key +:+ ")'") +:+ ";".

Fixpoint declarations (prefix : string) (names : list string) : string :=
  match names with
  | [] => ""
  | key :: rest => declaration prefix key +:+ declarations prefix rest
  end.

(** The names of [ks] that are not array indices, in the order of [ks]. *)
Definition named (ks : list string) : list string :=
  List.filter (fun k => negb (JS.is_array_index k)) ks.

(** The names of [l] that [ks] does not have, in the order of [l]. *)
Definition missing_from (ks l : list string) : list string :=
  List.filter (fun k => negb (mem k ks)) l.

(** A code unit that [.] accepts. *)
Definition not_terminator (c : ascii) : Prop := JS.is_line_terminator c = false.

#[local] Abbreviation semicolon := ";"%char (only parsing).

(** [m], followed by [rest], is what [(@import.*;)] matches: [@import],
    then code units of the same line up to a [;] that is the last one of
    the line. *)
Definition import_match (m rest : list ascii) : Prop :=
  exists body,
    m = JS.at_import ++ body ++ [semicolon] /\
    Forall not_terminator body /\
    forall r1 r2, rest = r1 ++ semicolon :: r2 -> ~ Forall not_terminator r1.

(** Some match of [(@import.*;)] starts at the head of [s]. *)
Definition import_here (s : list ascii) : Prop :=
  exists body tail, s = JS.at_import ++ body ++ semicolon :: tail /\ Forall not_terminator body.

(** [inserted_after_imports block s out]: [out] is [s] with [block] put
    right after each match of [(@import.*;)], the matches being taken from
    left to right, and with nothing else changed. *)
Inductive inserted_after_imports (block : list ascii) : list ascii -> list ascii -> Prop :=
| inserted_end : inserted_after_imports block [] []
| inserted_pass c s out :
    ~ import_here (c :: s) ->
    inserted_after_imports block s out ->
    inserted_after_imports block (c :: s) (c :: out)
| inserted_match m rest out :
    import_match m rest ->
    inserted_after_imports block rest out ->
    inserted_after_imports block (m ++ rest) (m ++ block ++ out).

#[local] Abbreviation dollar := "$"%char (only parsing).

(** [free_of c s]: the code unit [c] does not occur in [s]. *)
Definition free_of (c : ascii) (s : list ascii) : bool :=
  forallb (fun x => negb (Ascii.eqb x c)) s.

(** The rule at position [j] is one the callback leaves alone. *)
Definition done (st : Store) (j : nat) : Prop :=
  match module_rules st !! j with
  | None => True
  | Some r =>
      match use r with
      | use_single (Some (UseString s)) =>
          JS.includes (JS.chars "less-loader") (JS.chars s) = false
      | use_single _ => True
      | use_array a => existsb is_injected (default [] (arrays st !! a)) = true
      end
  end.

(** The path of the injected loader contains the name by which [some]
    recognises it. *)
Definition loaderPath_is_recognised : Prop :=
  JS.includes (JS.chars "theme-var-loader") (JS.chars loaderPath) = true.

(** How a run of the callback on the rule at position [i] can end. *)
Inductive step_result (options : ThemePluginOptions) (st : Store) (i : nat)
  : Store * Completion unit -> Prop :=
| step_skip : step_result options st i (st, Normal tt)
| step_throw e : step_result options st i (st, Abrupt e)
| step_string r s w :
    module_rules st !! i = Some r ->
    use r = use_single (Some (UseString s)) ->
    step_result options st i
      ({| module_rules := <[i := set_use r (use_array (length (arrays st)))]> (module_rules st);
          arrays := arrays st ++ [[loader options; w]];
          regexps := regexps st |}, Normal tt)
| step_array r a front x w :
    module_rules st !! i = Some r ->
    use r = use_array a ->
    arrays st !! a = Some (front ++ [x]) ->
    step_result options st i
      ({| module_rules := module_rules st;
          arrays := <[a := front ++ [loader options; w]]> (arrays st);
          regexps := regexps st |}, Normal tt).

(** What [filter] looks at in the rules. *)
Definition tests (st : Store) : list RuleTest := map test (module_rules st).

(** No [RegExp] of the store has the flag [g] or [y]. *)
Definition stateless (res : list RegExp) : Prop :=
  Forall (fun re => global_or_sticky re = false) res.

(** The order the specification gives for the names of the block: the dark
    variant's keys, then the light variant's keys not seen before. *)
Definition dark_then_light (dark_vars light_vars : JS.Obj) : list string :=
  map fst dark_vars ++ missing_from (map fst dark_vars) (map fst light_vars).

(** The names of [ks] in order of first occurrence, each once. *)
Fixpoint first_occurrences (ks : list string) : list string :=
  match ks with
  | [] => []
  | k :: rest => k :: List.filter (fun x => negb (String.eqb x k)) (first_occurrences rest)
  end.

(** The names under which the loop of [parseLessVariables] stores
    something. *)
Definition stored (ks : list string) : list string :=
  List.filter (fun k => negb (String.eqb k "__proto__")) ks.

(** A file read. *)
Definition is_read (ev : Event) : bool :=
  match ev with
  | ReadFile _ => true
  | _ => false
  end.

(** A line that begins with an import statement, given by the text
    between [@import] and the [;] that ends the statement and by what
    follows the [;] up to the next such line; [block] is put right after
    the [;]. *)
Definition import_line (block : list ascii) (line : list ascii * list ascii) : list ascii :=
  JS.at_import ++ fst line ++ semicolon :: block ++ snd line.

(** The statement stays on its line, the line ends right after its [;],
    and no [@] stands before the next import line. *)
Definition one_import (line : list ascii * list ascii) : Prop :=
  Forall not_terminator (fst line) /\
  (exists nl gap, snd line = nl :: gap /\ JS.is_line_terminator nl = true) /\
  free_of "@" (snd line) = true.

(** The value of [themeCache] once the first statements of the hook have
    run: the cache of the build, or the variables that the hook extracts;
    none when the extraction is rejected. *)
Definition themeCache_used (options : ThemePluginOptions) (b : Build) : option ThemeCache :=
  match antdThemeCache b with
  | Some themeCache => Some themeCache
  | None =>
      match completion (getThemeVars options) with
      | Normal tv => Some (cache_vars tv)
      | Abrupt _ => None
      end
  end.

(** [entryName] in the hook. *)
Definition entryName (b : Build) : option string := head (JS.ordered_keys (entry_keys b)).

(** White space only. *)
Definition white (w : list ascii) : bool := forallb JS.is_white_space w.

(** What the pattern of the hook matches: the opening of an arrow function
    without parameters behind a parenthesis, with white space where the
    pattern has [\s*]. *)
Definition arrow_open (w1 w2 w3 w4 : list ascii) : list ascii :=
  "("%char :: w1 ++ "("%char :: w2 ++ ")"%char :: w3 ++ "="%char :: ">"%char :: w4
  ++ ["{"%char].

(** Equal lists of code units, up to the grouping of [++]. *)
Ltac reassociate :=
  repeat first [rewrite <- app_assoc | progress cbn [app]]; reflexivity.

(** ** Facts about the runtime primitives *)

Lemma mem_elem_of k ks : mem k ks = true <-> k ∈ ks.
Proof.
  unfold mem. rewrite existsb_exists. split.
  - intros (x & Hx & He). apply String.eqb_eq in He as ->. by apply list_elem_of_In.
  - intros H. exists k. split; [by apply list_elem_of_In|apply String.eqb_refl].
Qed.

Lemma mem_not_elem_of k ks : mem k ks = false <-> k ∉ ks.
Proof.
  rewrite <- mem_elem_of. destruct (mem k ks); split; congruence.
Qed.

Lemma get_define o k v k' :
  JS.get (JS.define o k v) k' = if String.eqb k k' then Some v else JS.get o k'.
Proof.
  induction o as [|[k0 v0] o IH]; simpl.
  - reflexivity.
  - destruct (String.eqb_spec k0 k) as [->|Hne]; simpl.
    + destruct (String.eqb k k'); reflexivity.
    + destruct (String.eqb_spec k0 k') as [->|Hne'].
      * destruct (String.eqb_spec k k') as [->|_]; [congruence|reflexivity].
      * apply IH.
Qed.

Lemma keys_define o k v :
  map fst (JS.define o k v) = if mem k (map fst o) then map fst o else map fst o ++ [k].
Proof.
  induction o as [|[k0 v0] o IH]; simpl; [reflexivity|].
  rewrite (String.eqb_sym k k0).
  destruct (String.eqb_spec k0 k) as [->|Hne]; simpl; [reflexivity|].
  rewrite IH. unfold mem. destruct (existsb _ _); reflexivity.
Qed.

Lemma get_is_Some o k : is_Some (JS.get o k) <-> k ∈ map fst o.
Proof.
  isolate.
  induction o as [|[k0 v0] o IH]; simpl.
  - split; [intros [? H]; discriminate H|intros H; inversion H].
  - destruct (String.eqb_spec k0 k) as [->|Hne].
    + split; [intros _; left|eauto].
    + rewrite IH. rewrite elem_of_cons. split; [tauto|intros [->|?]; [congruence|done]].
Qed.

Lemma NoDup_keys_define o k v : NoDup (map fst o) -> NoDup (map fst (JS.define o k v)).
Proof.
  intros H. rewrite keys_define. destruct (mem k (map fst o)) eqn:Hm; [exact H|].
  apply mem_not_elem_of in Hm. apply NoDup_app. repeat split; [exact H| |apply NoDup_singleton].
  intros x Hx Hx'. apply list_elem_of_singleton in Hx' as ->. done.
Qed.

Lemma elem_of_keys_define o k v k' :
  k' ∈ map fst (JS.define o k v) <-> k' ∈ map fst o \/ k' = k.
Proof.
  isolate.
  rewrite keys_define. destruct (mem k (map fst o)) eqn:Hm.
  - apply mem_elem_of in Hm. split; [tauto|intros [?| ->]; done].
  - rewrite elem_of_app, list_elem_of_singleton. tauto.
Qed.

Lemma collect_keys_NoDup ds acc :
  NoDup (map fst acc) -> NoDup (map fst (fold_left store_declaration ds acc)).
Proof.
  revert acc; induction ds as [|d ds IH]; intros acc H; simpl; [exact H|].
  apply IH. unfold store_declaration, JS.assign.
  destruct (String.eqb _ "__proto__"); [exact H|by apply NoDup_keys_define].
Qed.

Lemma collect_keys_elem_of ds acc k :
  k ∈ map fst (fold_left store_declaration ds acc) <->
  k ∈ map fst acc \/ (k <> "__proto__" /\ exists d, d ∈ ds /\ key_of d = k).
Proof.
  isolate.
  revert acc; induction ds as [|d ds IH]; intros acc; simpl.
  - split; [tauto|]. intros [H|(_ & d & Hd & _)]; [exact H|inversion Hd].
  - rewrite IH. unfold store_declaration, JS.assign.
    destruct (String.eqb_spec (key_of d) "__proto__") as [Hp|Hp].
    + split.
      * intros [H|(Hk & d' & Hd' & He)]; [tauto|]. right. split; [exact Hk|].
        exists d'. split; [by right|exact He].
      * intros [H|(Hk & d' & Hd' & He)]; [tauto|]. right. split; [exact Hk|].
        apply elem_of_cons in Hd' as [->|Hd']; [congruence|]. eauto.
    + rewrite elem_of_keys_define. split.
      * intros [[H| ->]|(Hk & d' & Hd' & He)]; [tauto| |].
        -- right. split; [exact Hp|]. exists d. split; [left|reflexivity].
        -- right. split; [exact Hk|]. exists d'. split; [by right|exact He].
      * intros [H|(Hk & d' & Hd' & He)]; [tauto|].
        apply elem_of_cons in Hd' as [->|Hd']; [left; right; symmetry; exact He|].
        right. eauto.
Qed.

Lemma collect_get_other ds acc k :
  Forall (fun d => key_of d <> k) ds ->
  JS.get (fold_left store_declaration ds acc) k = JS.get acc k.
Proof.
  revert acc; induction ds as [|d ds IH]; intros acc H; simpl; [reflexivity|].
  inversion H as [|? ? Hd Hds]; subst. rewrite (IH _ Hds).
  unfold store_declaration, JS.assign.
  destruct (String.eqb _ "__proto__"); [reflexivity|].
  rewrite get_define. destruct (String.eqb_spec (key_of d) k); [congruence|reflexivity].
Qed.

Lemma collect_get_last before d after acc :
  key_of d <> "__proto__" ->
  Forall (fun d' => key_of d' <> key_of d) after ->
  JS.get (fold_left store_declaration (before ++ d :: after) acc) (key_of d)
  = Some (rendered d).
Proof.
  intros Hp Hafter. rewrite fold_left_app. simpl.
  rewrite (collect_get_other _ _ _ Hafter).
  unfold store_declaration at 1, JS.assign.
  destruct (String.eqb_spec (key_of d) "__proto__"); [congruence|].
  rewrite get_define, String.eqb_refl. reflexivity.
Qed.

(** On declarations the loop makes one assignment after the other and
    does not throw. *)
Lemma forEach_collect_declarations ds acc :
  forEach_collect (map node_of ds) acc = Normal (fold_left store_declaration ds acc).
Proof.
  revert acc; induction ds as [|d ds IH]; intros acc; [reflexivity|]. apply IH.
Qed.

Lemma collect_NoDup variables rule variables' :
  collect variables rule = Normal variables' ->
  NoDup (map fst variables) -> NoDup (map fst variables').
Proof.
  unfold collect. destruct (name_slice1 _) as [key|]; [|discriminate].
  destruct (value_toCSS _) as [css|]; [|discriminate]. intros [= <-] H.
  unfold JS.assign. destruct (String.eqb _ "__proto__"); [exact H|by apply NoDup_keys_define].
Qed.

Lemma forEach_collect_NoDup l : forall acc variables,
  forEach_collect l acc = Normal variables ->
  NoDup (map fst acc) -> NoDup (map fst variables).
Proof.
  induction l as [|rule l IH]; intros acc variables; simpl.
  - by intros [= <-].
  - destruct (collect acc rule) as [acc'|] eqn:Hc; [|discriminate].
    intros H Hn. apply (IH _ _ H). by eapply collect_NoDup.
Qed.

Lemma parseLessVariables_ok filePath text all variables :
  readFileSync filePath = Some text ->
  less_parse text = Some all ->
  forEach_rules (rules all) [] = Normal variables ->
  parseLessVariables filePath = ([ReadFile filePath; LessParse text], Normal variables).
Proof.
  intros Hr Hp Hv. unfold parseLessVariables, fs_readFileSync, less_parse_async.
  rewrite Hr. cbn. rewrite Hp. cbn. rewrite Hv. reflexivity.
Qed.

Lemma parseLessVariables_declarations filePath text ds :
  readFileSync filePath = Some text ->
  less_parse text = Some {| rules := Some (map node_of ds) |} ->
  parseLessVariables filePath
  = ([ReadFile filePath; LessParse text], Normal (fold_left store_declaration ds [])).
Proof.
  intros Hr Hp. apply (parseLessVariables_ok _ _ _ _ Hr Hp), forEach_collect_declarations.
Qed.

Lemma parseLessVariables_Normal filePath variables :
  completion (parseLessVariables filePath) = Normal variables ->
  exists text all,
    readFileSync filePath = Some text /\ less_parse text = Some all /\
    forEach_rules (rules all) [] = Normal variables.
Proof.
  unfold parseLessVariables, fs_readFileSync, less_parse_async.
  destruct (readFileSync filePath) as [text|]; cbn; [|discriminate].
  destruct (less_parse text) as [all|] eqn:Hp; cbn; [|discriminate].
  destruct (forEach_rules (rules all) []) as [v|e] eqn:Hv; cbn; [|discriminate].
  intros [= <-]. by exists text, all.
Qed.

Lemma parseLessVariables_NoDup filePath variables :
  completion (parseLessVariables filePath) = Normal variables -> NoDup (map fst variables).
Proof.
  intros H. apply parseLessVariables_Normal in H as (text & all & _ & _ & H).
  destruct (rules all) as [l|]; simpl in H.
  - apply (forEach_collect_NoDup _ _ _ H). constructor.
  - injection H as <-. constructor.
Qed.

(** ** Variable extraction *)

(** C1, amended.  For a file whose top-level nodes are the declarations
    [ds], none of them named [@__proto__], [parseLessVariables] resolves to
    a map with exactly one entry for each distinct declared name, the name
    without its first character, bound to the rendered value of the last
    declaration of that name; for [@a: red; @b: green;] the map is
    [{a: "red", b: "green"}]. *)
Theorem parseLessVariables_one_entry_per_name filePath text ds :
  readFileSync filePath = Some text ->
  less_parse text = Some {| rules := Some (map node_of ds) |} ->
  Forall (fun d => key_of d <> "__proto__") ds ->
  exists variables,
    completion (parseLessVariables filePath) = Normal variables /\
    NoDup (map fst variables) /\
    (forall k, k ∈ map fst variables <-> exists d, d ∈ ds /\ key_of d = k) /\
    (forall before d after,
        ds = before ++ d :: after ->
        Forall (fun d' => key_of d' <> key_of d) after ->
        JS.get variables (key_of d) = Some (rendered d)) /\
    (ds = [ {| declared := "@a"; rendered := "red" |};
            {| declared := "@b"; rendered := "green" |} ] ->
     variables = [("a", "red"); ("b", "green")]).
Proof.
  intros Hr Hp Hproto. exists (fold_left store_declaration ds []).
  rewrite (parseLessVariables_declarations _ _ _ Hr Hp). simpl.
  split; [reflexivity|]. split; [apply collect_keys_NoDup; constructor|].
  split; [|split].
  - intros k. rewrite collect_keys_elem_of. split.
    + intros [H|(_ & d & Hd & He)]; [inversion H|eauto].
    + intros (d & Hd & He). right. split; [|eauto].
      rewrite Forall_forall in Hproto. rewrite <- He. apply Hproto, Hd.
  - intros before d after -> Hafter. apply collect_get_last; [|exact Hafter].
    rewrite Forall_forall in Hproto. apply Hproto. rewrite elem_of_app. right. left.
  - intros ->. reflexivity.
Qed.

(** C7.  A path that cannot be read rejects with [FileReadError], text that
    does not parse rejects with [ParseError]; the error is logged and
    thrown again as it is, after a single read. *)
Theorem parseLessVariables_rejects filePath :
  (readFileSync filePath = None ->
   parseLessVariables filePath =
     ([ReadFile filePath;
       ConsoleError "Error parsing Less file:" (FileReadError filePath)],
      Abrupt (FileReadError filePath)))
  /\
  (forall text,
      readFileSync filePath = Some text ->
      less_parse text = None ->
      parseLessVariables filePath =
        ([ReadFile filePath; LessParse text;
          ConsoleError "Error parsing Less file:" (ParseError text)],
         Abrupt (ParseError text))).
Proof.
  unfold parseLessVariables, fs_readFileSync, less_parse_async. split.
  - intros ->. reflexivity.
  - intros text -> Hp. cbn. rewrite Hp. reflexivity.
Qed.


(** ** The override block *)

Lemma completion_bind {A B} (m : Eff A) (f : A -> Eff B) :
  completion (m ≫= f) =
  match completion m with
  | Normal a => completion (f a)
  | Abrupt e => Abrupt e
  end.
Proof.
  destruct m as [t [a|e]]; unfold mbind, Eff_bind; simpl; [|reflexivity].
  destruct (f a); reflexivity.
Qed.

Lemma getThemeVars_completion options :
  completion (getThemeVars options) =
  match completion (Promise_all2 (lessToJS (darkPath options)) (lessToJS (lightPath options))) with
  | Normal (d, l) => Normal {| vars_light := l; vars_dark := d |}
  | Abrupt e => Abrupt e
  end.
Proof.
  unfold getThemeVars. rewrite completion_bind. fold (darkPath options) (lightPath options).
  destruct (completion _) as [[d l]|e]; reflexivity.
Qed.

Lemma Promise_all2_rejected p q :
  (exists e, completion p = Abrupt e) \/ (exists e, completion q = Abrupt e) ->
  exists e, (completion p = Abrupt e \/ completion q = Abrupt e) /\
            completion (Promise_all2 p q) = Abrupt e.
Proof.
  unfold Promise_all2. simpl.
  destruct (completion p) as [a|e1], (completion q) as [b|e2]; intros H.
  - destruct H as [[e H]|[e H]]; discriminate H.
  - exists e2. auto.
  - exists e1. destruct e1; auto.
  - destruct e1, e2; try destruct dark_parse_settles_first; eauto.
Qed.

(** C9.  When the extraction of either variant is rejected, the extraction
    of the pair, the synthesis of the block and every call of the
    content-prepend function are rejected with that error; no block is
    made from the other variant. *)
Theorem theme_block_fails_with_either_variant options :
  (exists e, completion (lessToJS (darkPath options)) = Abrupt e) \/
  (exists e, completion (lessToJS (lightPath options)) = Abrupt e) ->
  exists e,
    (completion (lessToJS (darkPath options)) = Abrupt e \/
     completion (lessToJS (lightPath options)) = Abrupt e) /\
    completion (getThemeVars options) = Abrupt e /\
    completion (lessDefaultAddictionData options) = Abrupt e /\
    forall originData content context,
      completion (getLessAddictionData options originData content context) = Abrupt e.
Proof.
  intros H. apply Promise_all2_rejected in H as (e & He & Hall). exists e.
  assert (Hv : completion (getThemeVars options) = Abrupt e)
    by (rewrite getThemeVars_completion, Hall; reflexivity).
  assert (Hb : completion (lessDefaultAddictionData options) = Abrupt e).
  { unfold lessDefaultAddictionData, getLessVariables. rewrite !completion_bind, Hv. reflexivity. }
  repeat split; try assumption.
  intros originData content context. unfold getLessAddictionData.
  rewrite completion_bind, Hb. reflexivity.
Qed.

Lemma append_cons x (a b : string) : String x a +:+ b = String x (a +:+ b).
Proof. reflexivity. Qed.

Lemma append_assoc (a b c : string) : (a +:+ b) +:+ c = a +:+ b +:+ c.
Proof.
  induction a as [|x a IH]; [reflexivity|]. rewrite !append_cons. f_equal. exact IH.
Qed.

Lemma append_nil_r (a : string) : a +:+ "" = a.
Proof.
  induction a as [|x a IH]; [reflexivity|]. rewrite append_cons. f_equal. exact IH.
Qed.

Lemma reduce_declarations prefix ks pre :
  fold_left (fun pre kv => pre +:+ "@" +:+ fst kv +:+ ":" +:+ snd kv +:+ ";")
            (map (fun key => (key, "~'var(--" +:+ prefix +:+ "-" +:+ key +:+ ")'")) ks) pre
  = pre +:+ declarations prefix ks.
Proof.
  revert pre; induction ks as [|k ks IH]; intros pre; simpl.
  - symmetry. apply append_nil_r.
  - rewrite IH. apply append_assoc.
Qed.

Lemma filter_all_false {A} (f : A -> bool) l :
  (forall x, x ∈ l -> f x = false) -> List.filter f l = [].
Proof.
  induction l as [|a l IH]; intros H; simpl; [reflexivity|].
  rewrite (H a) by left. apply IH. intros x Hx. apply H. by right.
Qed.

Lemma filter_all_true {A} (f : A -> bool) l :
  (forall x, x ∈ l -> f x = true) -> List.filter f l = l.
Proof.
  induction l as [|a l IH]; intros H; simpl; [reflexivity|].
  rewrite (H a) by left. f_equal. apply IH. intros x Hx. apply H. by right.
Qed.

Lemma filter_comm {A} (f g : A -> bool) l :
  List.filter f (List.filter g l) = List.filter g (List.filter f l).
Proof.
  induction l as [|a l IH]; simpl; [reflexivity|].
  destruct (f a) eqn:Hf, (g a) eqn:Hg; simpl; rewrite ?Hf, ?Hg, IH; reflexivity.
Qed.

Lemma filter_split_Permutation {A} (f : A -> bool) l :
  List.filter f l ++ List.filter (fun x => negb (f x)) l ≡ₚ l.
Proof.
  induction l as [|a l IH]; simpl; [reflexivity|].
  destruct (f a); simpl.
  - by rewrite IH.
  - rewrite <- Permutation_middle. by rewrite IH.
Qed.

Lemma elem_of_filter_bool {A} (f : A -> bool) l x :
  x ∈ List.filter f l <-> x ∈ l /\ f x = true.
Proof. rewrite !list_elem_of_In. apply List.filter_In. Qed.

#[local] Instance index_le_transitive : Transitive JS.index_le.
Proof. intros a b c. unfold JS.index_le. lia. Qed.

#[local] Instance index_le_total : Total JS.index_le.
Proof. intros a b. unfold JS.index_le. lia. Qed.

Lemma OwnPropertyKeys_Permutation o : JS.OwnPropertyKeys o ≡ₚ map fst o.
Proof.
  unfold JS.OwnPropertyKeys. rewrite merge_sort_Permutation. apply filter_split_Permutation.
Qed.

Lemma elem_of_OwnPropertyKeys o k : k ∈ JS.OwnPropertyKeys o <-> k ∈ map fst o.
Proof. by rewrite OwnPropertyKeys_Permutation. Qed.

Lemma named_OwnPropertyKeys o : named (JS.OwnPropertyKeys o) = named (map fst o).
Proof.
  unfold named, JS.OwnPropertyKeys. rewrite List.filter_app.
  rewrite filter_all_false.
  - simpl. apply filter_all_true. intros x Hx. by apply elem_of_filter_bool in Hx as [_ Hx].
  - intros x Hx. rewrite merge_sort_Permutation in Hx.
    apply elem_of_filter_bool in Hx as [_ ->]. reflexivity.
Qed.

Lemma mem_OwnPropertyKeys o k : mem k (JS.OwnPropertyKeys o) = mem k (map fst o).
Proof.
  destruct (mem k (map fst o)) eqn:H.
  - apply mem_elem_of. apply mem_elem_of in H. by apply elem_of_OwnPropertyKeys.
  - apply mem_not_elem_of. apply mem_not_elem_of in H. by rewrite elem_of_OwnPropertyKeys.
Qed.

Lemma keys_fold_define (f : string -> option string) ks target :
  NoDup ks ->
  (forall k, k ∈ ks -> is_Some (f k)) ->
  map fst (fold_left (fun acc k => match f k with
                                   | Some v => JS.define acc k v
                                   | None => acc
                                   end) ks target)
  = map fst target ++ missing_from (map fst target) ks.
Proof.
  unfold missing_from.
  revert target; induction ks as [|k ks IH]; intros target Hnd Hf; simpl.
  - by rewrite app_nil_r.
  - apply NoDup_cons in Hnd as [Hk Hnd].
    destruct (Hf k) as [v Hv]; [left|]. rewrite Hv.
    rewrite IH; [|exact Hnd|intros; apply Hf; by right].
    rewrite keys_define.
    assert (Hext : List.filter (fun k0 => negb (mem k0 (map fst target ++ [k]))) ks
                   = List.filter (fun k0 => negb (mem k0 (map fst target))) ks).
    { apply List.filter_ext_in. intros x Hx. f_equal. unfold mem.
      rewrite existsb_app. simpl. rewrite orb_false_r.
      destruct (String.eqb_spec x k) as [->|_]; [|apply orb_false_r].
      apply list_elem_of_In in Hx. done. }
    destruct (mem k (map fst target)) eqn:Hm; simpl.
    + reflexivity.
    + rewrite Hext, <- app_assoc. reflexivity.
Qed.

Lemma keys_copy_data_properties target source :
  NoDup (map fst source) ->
  map fst (JS.copy_data_properties target source)
  = map fst target ++ missing_from (map fst target) (JS.OwnPropertyKeys source).
Proof.
  intros Hnd. unfold JS.copy_data_properties. apply keys_fold_define.
  - by rewrite OwnPropertyKeys_Permutation.
  - intros k Hk. apply get_is_Some. by apply elem_of_OwnPropertyKeys.
Qed.

Lemma NoDup_copy_data_properties target source :
  NoDup (map fst target) -> NoDup (map fst (JS.copy_data_properties target source)).
Proof.
  unfold JS.copy_data_properties. generalize (JS.OwnPropertyKeys source) as ks.
  intros ks; revert target; induction ks as [|k ks IH]; intros target H; simpl; [exact H|].
  apply IH. destruct (JS.get source k); [by apply NoDup_keys_define|exact H].
Qed.

Lemma missing_from_nil l : missing_from [] l = l.
Proof. unfold missing_from. by apply filter_all_true. Qed.

Lemma keys_spread2 a b :
  NoDup (map fst a) -> NoDup (map fst b) ->
  map fst (JS.spread2 a b)
  = JS.OwnPropertyKeys a ++ missing_from (map fst a) (JS.OwnPropertyKeys b).
Proof.
  intros Ha Hb. unfold JS.spread2.
  rewrite (keys_copy_data_properties _ b Hb), (keys_copy_data_properties [] a Ha). simpl.
  rewrite !missing_from_nil. f_equal. unfold missing_from.
  apply List.filter_ext. intros k. by rewrite mem_OwnPropertyKeys.
Qed.

Lemma named_missing_from ks o :
  named (missing_from ks (JS.OwnPropertyKeys o)) = missing_from ks (named (map fst o)).
Proof.
  unfold named, missing_from. rewrite filter_comm. f_equal. apply named_OwnPropertyKeys.
Qed.

(** The names of [{...a, ...b}] as [Object.keys] lists them. *)
Lemma keys_spread2_order a b :
  NoDup (map fst a) -> NoDup (map fst b) ->
  exists indices,
    JS.keys (JS.spread2 a b)
      = indices ++ named (map fst a) ++ missing_from (map fst a) (named (map fst b)) /\
    StronglySorted JS.index_le indices /\
    (forall k, k ∈ indices <->
               JS.is_array_index k = true /\ (k ∈ map fst a \/ k ∈ map fst b)) /\
    NoDup (JS.keys (JS.spread2 a b)).
Proof.
  isolate.
  intros Ha Hb. unfold JS.keys.
  exists (merge_sort JS.index_le (List.filter JS.is_array_index (map fst (JS.spread2 a b)))).
  split; [|split; [|split]].
  - unfold JS.OwnPropertyKeys at 1. f_equal. fold (named (map fst (JS.spread2 a b))).
    rewrite (keys_spread2 a b Ha Hb). unfold named at 1. rewrite List.filter_app.
    fold (named (JS.OwnPropertyKeys a)) (named (missing_from (map fst a) (JS.OwnPropertyKeys b))).
    by rewrite named_OwnPropertyKeys, named_missing_from.
  - apply StronglySorted_merge_sort; apply _.
  - intros k. rewrite merge_sort_Permutation, elem_of_filter_bool, (keys_spread2 a b Ha Hb).
    rewrite elem_of_app. unfold missing_from. rewrite elem_of_filter_bool.
    rewrite !elem_of_OwnPropertyKeys, negb_true_iff, mem_not_elem_of.
    destruct (decide (k ∈ map fst a)); tauto.
  - rewrite OwnPropertyKeys_Permutation.
    unfold JS.spread2. apply NoDup_copy_data_properties, NoDup_copy_data_properties. constructor.
Qed.

Lemma lessDefaultAddictionData_completion options dark_vars light_vars :
  completion (lessToJS (darkPath options)) = Normal dark_vars ->
  completion (lessToJS (lightPath options)) = Normal light_vars ->
  completion (lessDefaultAddictionData options)
  = Normal (declarations (themeClassPre options) (JS.keys (JS.spread2 light_vars dark_vars))).
Proof.
  intros Hd Hl. unfold lessDefaultAddictionData, getLessVariables.
  rewrite !completion_bind, getThemeVars_completion.
  unfold Promise_all2. simpl. rewrite Hd, Hl. simpl.
  by rewrite reduce_declarations.
Qed.

(** C2, amended.  The block is the concatenation, with no separators, of
    one declaration [@name:~'var(--{prefix}-{name})';] for each name of the
    union of the two variants' key sets, without repetition: first the
    names that are array indices, in ascending numeric order; then the other
    names in order of first appearance, the light variant's keys before the
    dark variant's.  For dark [{primary-color, my-color}], light
    [{primary-color}] and prefix [antd-theme] it is the block of the
    example, and it is empty when neither variant has a variable. *)
Theorem lessDefaultAddictionData_block options dark_vars light_vars :
  completion (lessToJS (darkPath options)) = Normal dark_vars ->
  completion (lessToJS (lightPath options)) = Normal light_vars ->
  exists indices,
    let names := indices ++ named (map fst light_vars)
                         ++ missing_from (map fst light_vars) (named (map fst dark_vars)) in
    completion (lessDefaultAddictionData options)
      = Normal (declarations (themeClassPre options) names) /\
    NoDup names /\
    (forall k, k ∈ names <-> k ∈ map fst dark_vars \/ k ∈ map fst light_vars) /\
    StronglySorted JS.index_le indices /\
    (forall k, k ∈ indices <->
               JS.is_array_index k = true /\
               (k ∈ map fst light_vars \/ k ∈ map fst dark_vars)) /\
    (map fst dark_vars = ["primary-color"; "my-color"] ->
     map fst light_vars = ["primary-color"] ->
     themeClassPre options = "antd-theme" ->
     completion (lessDefaultAddictionData options)
       = Normal "@primary-color:~'var(--antd-theme-primary-color)';@my-color:~'var(--antd-theme-my-color)';") /\
    (dark_vars = [] -> light_vars = [] ->
     completion (lessDefaultAddictionData options) = Normal "").
Proof.
  isolate.
  intros Hd Hl.
  pose proof (parseLessVariables_NoDup _ _ Hd) as Hnd.
  pose proof (parseLessVariables_NoDup _ _ Hl) as Hnl.
  destruct (keys_spread2_order light_vars dark_vars Hnl Hnd) as (indices & Hk & Hs & Hi & Hn).
  pose proof (lessDefaultAddictionData_completion _ _ _ Hd Hl) as Hc.
  exists indices. cbv zeta. rewrite <- Hk.
  split; [exact Hc|]. split; [exact Hn|]. split; [|split; [exact Hs|split; [exact Hi|split]]].
  - intros k. unfold JS.keys. rewrite elem_of_OwnPropertyKeys, (keys_spread2 _ _ Hnl Hnd).
    rewrite elem_of_app. unfold missing_from. rewrite elem_of_filter_bool.
    rewrite !elem_of_OwnPropertyKeys, negb_true_iff, mem_not_elem_of.
    destruct (decide (k ∈ map fst light_vars)); tauto.
  - intros Ed El Ep. rewrite Hc, Ep. f_equal.
    unfold JS.keys, JS.OwnPropertyKeys. rewrite (keys_spread2 _ _ Hnl Hnd).
    unfold JS.OwnPropertyKeys. rewrite Ed, El. reflexivity.
  - intros -> ->. rewrite Hc. reflexivity.
Qed.

(** ** The content-prepend function *)

Lemma dot_star_semi_None l :
  JS.dot_star_semi l = None ->
  forall body tail, l = body ++ semicolon :: tail -> ~ Forall not_terminator body.
Proof.
  induction l as [|c r IH]; simpl; intros H body tail E HF.
  - destruct body; simplify_eq/=.
  - destruct (JS.is_line_terminator c) eqn:Hc.
    + destruct body as [|b body]; simplify_eq/=.
      inversion HF as [|? ? Hb _]; subst. unfold not_terminator in Hb. congruence.
    + destruct (JS.dot_star_semi r) as [[m rest]|] eqn:Hr; [discriminate H|].
      destruct body as [|b body]; simplify_eq/=.
      inversion HF; subst. eapply IH; eauto.
Qed.

Lemma dot_star_semi_Some l m rest :
  JS.dot_star_semi l = Some (m, rest) ->
  exists body,
    m = body ++ [semicolon] /\ l = m ++ rest /\ Forall not_terminator body /\
    forall r1 r2, rest = r1 ++ semicolon :: r2 -> ~ Forall not_terminator r1.
Proof.
  revert m rest; induction l as [|c r IH]; simpl; intros m rest H; [discriminate H|].
  destruct (JS.is_line_terminator c) eqn:Hc; [discriminate H|].
  destruct (JS.dot_star_semi r) as [[m' rest']|] eqn:Hr.
  - injection H as <- <-. destruct (IH _ _ eq_refl) as (body & -> & -> & HF & Hmax).
    exists (c :: body). repeat split; [by constructor|exact Hmax].
  - destruct (Ascii.eqb_spec c semicolon) as [->|Hne]; [|discriminate H].
    injection H as <- <-. exists []. repeat split; [constructor|].
    intros r1 r2 E. eapply dot_star_semi_None; eauto.
Qed.

Lemma starts_with_app p l : JS.starts_with p (p ++ l) = true.
Proof.
  induction p as [|a p IH]; simpl; [reflexivity|]. by rewrite Ascii.eqb_refl.
Qed.

Lemma match_import_Some l m rest :
  JS.match_import l = Some (m, rest) -> l = m ++ rest /\ import_match m rest.
Proof.
  intros H. split; [by apply JS.match_import_split in H as [? _]|].
  unfold JS.match_import in H. destruct (JS.starts_with JS.at_import l); [|discriminate H].
  destruct (JS.dot_star_semi _) as [[m' rest']|] eqn:Hd; [|discriminate H].
  injection H as <- <-. apply dot_star_semi_Some in Hd as (body & -> & _ & HF & Hmax).
  exists body. auto.
Qed.

Lemma match_import_None l : JS.match_import l = None -> ~ import_here l.
Proof.
  intros H (body & tail & -> & HF). unfold JS.match_import in H.
  rewrite starts_with_app, drop_app_length in H.
  destruct (JS.dot_star_semi _) as [[m' rest']|] eqn:Hd; [discriminate H|].
  eapply dot_star_semi_None; eauto.
Qed.

Lemma GetSubstitution_plain matched before after capture1 tmpl :
  dollar ∉ tmpl -> JS.GetSubstitution matched before after capture1 tmpl = tmpl.
Proof.
  induction tmpl as [|c t IH]; intros H; simpl; [reflexivity|].
  destruct (Ascii.eqb_spec c "$") as [->|_].
  - exfalso. apply H. left.
  - f_equal. apply IH. intros Hin. apply H. by right.
Qed.

Lemma GetSubstitution_capture1 matched before after capture1 tmpl :
  JS.GetSubstitution matched before after capture1 (dollar :: "1"%char :: tmpl)
  = capture1 ++ JS.GetSubstitution matched before after capture1 tmpl.
Proof.
  destruct tmpl as [|d2 t3]; [reflexivity|].
  cbn -[JS.is_digit JS.digit_value Nat.ltb Nat.eqb].
  change (JS.is_digit "1") with true. change (JS.digit_value "1") with 1%nat. cbv iota.
  change (1 =? 1)%nat with true. cbv iota.
  destruct (JS.is_digit d2); [|reflexivity].
  replace (1 <? 10 * 1 + JS.digit_value d2)%nat with true; [reflexivity|].
  symmetry. apply Nat.ltb_lt. lia.
Qed.

Lemma replace_from_inserted block tmpl before s :
  tmpl = dollar :: "1"%char :: block ->
  dollar ∉ block ->
  inserted_after_imports block s (JS.replace_from tmpl before s).
Proof.
  intros Et Hb. funelim (JS.replace_from tmpl before s).
  - constructor.
  - destruct (match_import_Some _ _ _ H) as [E Hm]. rewrite E.
    rewrite GetSubstitution_capture1, (GetSubstitution_plain _ _ _ _ _ Hb), <- app_assoc.
    apply inserted_match; [exact Hm|]. by apply H0.
  - apply inserted_pass; [by apply match_import_None|]. by apply H.
Qed.

Lemma import_match_here m rest : import_match m rest -> import_here (m ++ rest).
Proof.
  intros (body & -> & HF & _). exists body, rest. split; [|exact HF].
  by rewrite <- !app_assoc.
Qed.

Lemma import_match_unique m1 rest1 m2 rest2 :
  m1 ++ rest1 = m2 ++ rest2 ->
  import_match m1 rest1 -> import_match m2 rest2 -> m1 = m2 /\ rest1 = rest2.
Proof.
  intros E (b1 & -> & HF1 & Hmax1) (b2 & -> & HF2 & Hmax2).
  rewrite <- !app_assoc in E. apply app_inv_head in E. simpl in E.
  apply app_eq_inv in E as [(k & -> & E)|(k & -> & E)].
  - destruct k as [|c k]; simpl in E.
    + injection E as ->. by rewrite app_nil_r.
    + injection E as <- ->. exfalso. apply (Hmax2 k rest1 eq_refl).
      apply Forall_app in HF1 as [_ HF1]. by inversion HF1.
  - destruct k as [|c k]; simpl in E.
    + injection E as ->. by rewrite app_nil_r.
    + injection E as <- ->. exfalso. apply (Hmax1 k rest2 eq_refl).
      apply Forall_app in HF2 as [_ HF2]. by inversion HF2.
Qed.

Lemma import_match_not_nil m rest : import_match m rest -> m ++ rest <> [].
Proof. intros (body & -> & _) E. discriminate E. Qed.

(** [inserted_after_imports] leaves no choice: the content and the block
    determine the result. *)
Lemma inserted_after_imports_unique block s out1 out2 :
  inserted_after_imports block s out1 ->
  inserted_after_imports block s out2 -> out1 = out2.
Proof.
  intros H1; revert out2; induction H1 as [|c s out Hno _ IH|m rest out Hm _ IH];
    intros out2 H2.
  - inversion H2 as [| |m rest out Hm _ E]; [reflexivity|].
    by apply import_match_not_nil in Hm.
  - inversion H2 as [|c' s' out' _ H2' E|m rest out' Hm _ E]; subst.
    + f_equal. by apply IH.
    + exfalso. apply Hno. rewrite <- E. by apply import_match_here.
  - remember (m ++ rest) as s eqn:Es.
    destruct H2 as [|c s out' Hno _|m' rest' out' Hm' H2'].
    + symmetry in Es. by apply import_match_not_nil in Hm.
    + exfalso. apply Hno. rewrite Es. by apply import_match_here.
    + destruct (import_match_unique _ _ _ _ Es Hm' Hm) as [-> ->].
      do 2 f_equal. by apply IH.
Qed.

Lemma replace_from_match tmpl before s m rest :
  JS.match_import s = Some (m, rest) ->
  JS.replace_from tmpl before s
  = JS.GetSubstitution m before rest m tmpl ++ JS.replace_from tmpl (before ++ m) rest.
Proof.
  intros Hs. funelim (JS.replace_from tmpl before s).
  - discriminate Hs.
  - rewrite H in Hs. by injection Hs as <- <-.
  - congruence.
Qed.

Lemma replace_from_no_match tmpl before c r :
  JS.match_import (c :: r) = None ->
  JS.replace_from tmpl before (c :: r) = c :: JS.replace_from tmpl (before ++ [c]) r.
Proof.
  intros Hs. funelim (JS.replace_from tmpl before (c :: r)).
  - congruence.
  - reflexivity.
Qed.

Lemma free_of_not_elem_of c s : free_of c s = true -> c ∉ s.
Proof.
  unfold free_of. rewrite forallb_forall. intros H Hin.
  apply list_elem_of_In, H in Hin. by rewrite Ascii.eqb_refl in Hin.
Qed.

Lemma replace_from_no_at tmpl before s :
  free_of "@" s = true -> JS.replace_from tmpl before s = s.
Proof.
  revert before; induction s as [|c r IH]; intros before H.
  - by simp replace_from.
  - simpl in H. apply andb_true_iff in H as [Hc Hr].
    rewrite replace_from_no_match; [by rewrite IH|].
    unfold JS.match_import.
    change (JS.starts_with JS.at_import (c :: r))
      with (Ascii.eqb "@" c && JS.starts_with (JS.chars "import") r).
    rewrite Ascii.eqb_sym. by destruct (Ascii.eqb c "@").
Qed.

Lemma str_app a b : JS.str (a ++ b) = JS.str a +:+ JS.str b.
Proof.
  induction a as [|x a IH]; [reflexivity|]. simpl. rewrite append_cons. f_equal. exact IH.
Qed.

Lemma str_chars s : JS.str (JS.chars s) = s.
Proof. apply string_of_list_ascii_of_string. Qed.

Lemma chars_str l : JS.chars (JS.str l) = l.
Proof. apply list_ascii_of_string_of_list_ascii. Qed.

Lemma getLessAddictionData_completion options originData content context vars newContent :
  completion (lessDefaultAddictionData options) = Normal vars ->
  completion (originContent originData content context) = Normal newContent ->
  completion (getLessAddictionData options originData content context)
  = Normal (place vars newContent).
Proof.
  intros Hv Hn. unfold getLessAddictionData.
  rewrite completion_bind, Hv. rewrite completion_bind, Hn. reflexivity.
Qed.

(** C3, amended.  The combined content [newContent] is what the original
    prepend option makes of the file content: the option's string followed
    by the content, or what the option's function returns for it.  When
    the combined content, trimmed, begins with [@import] and the block
    holds no [$], the function returns the combined content with the block
    put right after every match of the pattern [@import.*;], a match
    running from an [@import] to the last [;] of the same line, and with
    nothing else changed, so that every import is kept as it is and in
    the original order.  For [@import 'a.less';@import 'b.less';.foo{color:red}]
    there is one match, which holds both imports: the block appears once,
    after the second import. *)
Theorem getLessAddictionData_after_imports options originData content context vars newContent :
  completion (lessDefaultAddictionData options) = Normal vars ->
  completion (originContent originData content context) = Normal newContent ->
  JS.test_starts_import (JS.trim newContent) = true ->
  free_of "$" (JS.chars vars) = true ->
  exists out,
    completion (getLessAddictionData options originData content context) = Normal out /\
    inserted_after_imports (JS.chars vars) (JS.chars newContent) (JS.chars out) /\
    (newContent = "@import 'a.less';@import 'b.less';.foo{color:red}" ->
     out = "@import 'a.less';@import 'b.less';" +:+ vars +:+ ".foo{color:red}") /\
    (forall s, originData = AD_string s -> newContent = s +:+ content) /\
    (forall f, originData = AD_function f -> f content context = Normal newContent).
Proof.
  intros Hv Hn Ht Hfree.
  exists (JS.replace_imports newContent ("$1" +:+ vars)).
  rewrite (getLessAddictionData_completion _ _ _ _ _ _ Hv Hn).
  unfold place. rewrite Ht. split; [reflexivity|].
  apply free_of_not_elem_of in Hfree. unfold JS.replace_imports.
  change (JS.chars ("$1" +:+ vars)) with ("$"%char :: "1"%char :: JS.chars vars).
  split; [|split; [|split]].
  - rewrite chars_str. by apply replace_from_inserted.
  - intros ->.
    erewrite replace_from_match by (vm_compute; reflexivity).
    rewrite GetSubstitution_capture1, (GetSubstitution_plain _ _ _ _ _ Hfree).
    rewrite replace_from_no_at by reflexivity.
    rewrite !str_app, str_chars. reflexivity.
  - intros s ->. by injection Hn as <-.
  - intros f ->. exact Hn.
Qed.

(** C6, amended.  Unless the content to compile, with the original prepend
    applied and trimmed, begins with [@import]: for an original option
    that is a string the result is the block, then that string, then the
    file content; for one that is a function the result is the block, then
    what the function returns for the content; for [.foo{color:red}] and
    an empty original option it is the block followed by
    [.foo{color:red}]. *)
Theorem getLessAddictionData_prepends options content context vars :
  completion (lessDefaultAddictionData options) = Normal vars ->
  (forall s,
      JS.test_starts_import (JS.trim (s +:+ content)) = false ->
      completion (getLessAddictionData options (AD_string s) content context)
      = Normal (vars +:+ s +:+ content)) /\
  (forall f newContent,
      f content context = Normal newContent ->
      JS.test_starts_import (JS.trim newContent) = false ->
      completion (getLessAddictionData options (AD_function f) content context)
      = Normal (vars +:+ newContent)) /\
  (content = ".foo{color:red}" ->
   completion (getLessAddictionData options (AD_string "") content context)
   = Normal (vars +:+ ".foo{color:red}")).
Proof.
  intros Hv. split; [|split].
  - intros s Ht.
    rewrite (getLessAddictionData_completion options (AD_string s) content context
               vars (s +:+ content) Hv eq_refl).
    unfold place. by rewrite Ht.
  - intros f newContent Hf Ht.
    rewrite (getLessAddictionData_completion options (AD_function f) content context
               vars newContent Hv Hf).
    unfold place. by rewrite Ht.
  - intros ->.
    by rewrite (getLessAddictionData_completion options (AD_string "") ".foo{color:red}" context
                  vars ".foo{color:red}" Hv eq_refl).
Qed.

(** ** The loader-chain rewrite *)

Lemma formatLessLoader_Some options item :
  exists wrapped, formatLessLoader options (Some item) = Normal wrapped.
Proof.
  unfold formatLessLoader. destruct (JS.ends_with _ _); [eauto|].
  destruct item; eauto.
Qed.

Lemma formatLessLoader_Normal options loadInfo wrapped :
  formatLessLoader options loadInfo = Normal wrapped -> exists item, loadInfo = Some item.
Proof.
  destruct loadInfo as [item|]; [eauto|]. unfold formatLessLoader. simpl. discriminate.
Qed.

Lemma last_index (front : list UseItem) x :
  (Z.of_nat (length (front ++ [x])) - 1)%Z = Z.of_nat (length front).
Proof. rewrite length_app. simpl. lia. Qed.

Lemma array_get_last (front : list UseItem) x :
  array_get (front ++ [x]) (Z.of_nat (length front)) = Some x.
Proof.
  unfold array_get. destruct (Z.ltb_spec (Z.of_nat (length front)) 0); [lia|].
  rewrite Nat2Z.id. by apply list_lookup_middle.
Qed.

Lemma array_set_last (front : list UseItem) x w :
  array_set (front ++ [x]) (Z.of_nat (length front)) w = front ++ [w].
Proof.
  unfold array_set. destruct (Z.ltb_spec (Z.of_nat (length front)) 0); [lia|].
  rewrite Nat2Z.id. rewrite insert_app_r_alt by lia. by rewrite Nat.sub_diag.
Qed.

Lemma splice_in_last (front : list UseItem) w x :
  splice_in (front ++ [w]) (Z.of_nat (length front)) x = front ++ [x; w].
Proof.
  unfold splice_in. destruct (Z.ltb_spec (Z.of_nat (length front)) 0); [lia|].
  rewrite length_app. simpl.
  rewrite Z.min_l by lia. rewrite Nat2Z.id.
  by rewrite take_app_length, drop_app_length.
Qed.

Lemma rewriteRule_done options st j :
  done st j -> rewriteRule options st j = (st, Normal tt).
Proof.
  unfold done, rewriteRule. destruct (module_rules st !! j) as [r|]; [|reflexivity].
  destruct (use r) as [[[s|f|l o]|]|a]; try reflexivity.
  - by intros ->.
  - by intros ->.
Qed.

Lemma existsb_injected_default (arrs : list (list UseItem)) a :
  existsb is_injected (default [] (arrs !! a)) = true ->
  exists items, arrs !! a = Some items /\ existsb is_injected items = true.
Proof.
  destruct (arrs !! a) as [items|]; simpl; [eauto|discriminate].
Qed.

Lemma rewriteRule_cases options st i : step_result options st i (rewriteRule options st i).
Proof.
  unfold rewriteRule. destruct (module_rules st !! i) as [r|] eqn:Hr; [|constructor].
  destruct (use r) as [[[s|f|l o]|]|a] eqn:Hu; try constructor.
  - destruct (JS.includes _ _); [|constructor].
    destruct (formatLessLoader _ _); [|constructor].
    by eapply step_string.
  - destruct (existsb _ _); [constructor|].
    destruct (arrays st !! a) as [items|] eqn:Ha; simpl.
    + destruct items as [|x front _] using rev_ind.
      * cbn. constructor.
      * rewrite last_index, array_get_last.
        destruct (formatLessLoader_Some options x) as [w ->].
        rewrite array_set_last, splice_in_last. by eapply step_array.
    + cbn. constructor.
Qed.

Section Tests.

Variable options : ThemePluginOptions.

Lemma rewriteRule_throw st i st' e :
  rewriteRule options st i = (st', Abrupt e) -> st' = st.
Proof.
  intros Hstep. pose proof (rewriteRule_cases options st i) as Hc. rewrite Hstep in Hc.
  by inversion Hc.
Qed.

Lemma filter_from_tests rules : forall rules' i res,
  map test rules = map test rules' -> filter_from i rules res = filter_from i rules' res.
Proof.
  induction rules as [|item rules IH]; intros [|item' rules'] i res H; try discriminate H.
  - reflexivity.
  - injection H as Ht H. cbn [filter_from]. unfold test_matches_less. rewrite Ht.
    by rewrite (IH rules').
Qed.

Lemma lessRules_tests st st' :
  tests st = tests st' -> regexps st = regexps st' -> lessRules st = lessRules st'.
Proof.
  unfold tests, lessRules. intros H ->. by apply filter_from_tests.
Qed.

Lemma RegExp_test_stateless re : global_or_sticky re = false -> snd (RegExp_test re) = re.
Proof. unfold RegExp_test. by intros ->. Qed.

Lemma test_matches_less_stateless res item :
  stateless res -> snd (test_matches_less res item) = res.
Proof.
  intros H. unfold test_matches_less. destruct (test item) as [r|]; [|reflexivity].
  destruct (res !! r) as [re|] eqn:Hr; [|reflexivity]. cbn [snd].
  rewrite RegExp_test_stateless.
  - by apply list_insert_id.
  - unfold stateless in H. rewrite List.Forall_forall in H.
    apply H, list_elem_of_In. by eapply list_elem_of_lookup_2.
Qed.

Lemma filter_from_stateless rules : forall i res,
  stateless res -> snd (filter_from i rules res) = res.
Proof.
  induction rules as [|item rules IH]; intros i res H; [reflexivity|].
  cbn [filter_from snd]. rewrite test_matches_less_stateless by exact H. by apply IH.
Qed.

Lemma set_regexps_same st : set_regexps st (regexps st) = st.
Proof. by destruct st. Qed.

Lemma apply_environment_stateless st :
  stateless (regexps st) ->
  apply_environment options st = forEach (rewriteRule options) (fst (lessRules st)) st.
Proof.
  intros H. unfold apply_environment, lessRules.
  by rewrite filter_from_stateless, set_regexps_same.
Qed.

Lemma rewriteRule_tests st i st' c :
  rewriteRule options st i = (st', c) -> tests st' = tests st /\ regexps st' = regexps st.
Proof.
  intros Hstep. pose proof (rewriteRule_cases options st i) as Hc. rewrite Hstep in Hc.
  inversion Hc as [| |r s w Hr Hu|r a front x w Hr Hu Ha]; subst; try done.
  split; [|reflexivity]. unfold tests. simpl. rewrite list_fmap_insert. simpl.
  apply list_insert_id. by rewrite list_lookup_fmap, Hr.
Qed.

Lemma forEach_tests l : forall st st' c,
  forEach (rewriteRule options) l st = (st', c) ->
  tests st' = tests st /\ regexps st' = regexps st.
Proof.
  induction l as [|i l IH]; intros st st' c; simpl.
  - by intros [= <- <-].
  - destruct (rewriteRule options st i) as [st1 [[]|e]] eqn:Hstep.
    + intros Hrest. destruct (IH _ _ _ Hrest) as [-> ->]. by eapply rewriteRule_tests.
    + intros [= <- <-]. by eapply rewriteRule_tests.
Qed.

End Tests.

Section Idempotency.

Variable options : ThemePluginOptions.
Hypothesis recognised : loaderPath_is_recognised.

Set Default Proof Using "recognised".

Lemma loader_is_injected : is_injected (loader options) = true.
Proof. exact recognised. Qed.

Lemma existsb_injected_loader (front rest : list UseItem) :
  existsb is_injected (front ++ loader options :: rest) = true.
Proof.
  rewrite existsb_app. cbn [existsb]. by rewrite loader_is_injected, orb_true_r.
Qed.

Lemma done_preserved st i st' c j :
  rewriteRule options st i = (st', c) -> done st j -> done st' j.
Proof.
  intros Hstep. pose proof (rewriteRule_cases options st i) as Hc. rewrite Hstep in Hc.
  inversion Hc as [| |r s w Hr Hu|r a front x w Hr Hu Ha]; subst; try done.
  - unfold done. cbn [module_rules arrays]. destruct (decide (j = i)) as [->|Hne].
    + rewrite list_lookup_insert_eq by (by eapply lookup_lt_Some). cbn [use set_use].
      rewrite lookup_app_r by lia. rewrite Nat.sub_diag. cbn [lookup list_lookup default].
      intros _. exact (existsb_injected_loader [] [w]).
    + rewrite list_lookup_insert_ne by done.
      destruct (module_rules st !! j) as [rj|]; [|done].
      destruct (use rj) as [[[?|?|? ?]|]|b]; try done.
      intros Hb. apply existsb_injected_default in Hb as (items & Hb & Hex).
      by rewrite (lookup_app_l_Some _ _ _ _ Hb).
  - unfold done. cbn [module_rules arrays].
    destruct (module_rules st !! j) as [rj|]; [|done].
    destruct (use rj) as [[[?|?|? ?]|]|b]; try done.
    destruct (decide (b = a)) as [->|Hne].
    + intros _. rewrite list_lookup_insert_eq by (by eapply lookup_lt_Some).
      apply existsb_injected_loader.
    + by rewrite list_lookup_insert_ne.
Qed.

Lemma done_after st i st' :
  rewriteRule options st i = (st', Normal tt) -> done st' i.
Proof.
  intros Hstep. pose proof (rewriteRule_cases options st i) as Hc. rewrite Hstep in Hc.
  inversion Hc as [| |r s w Hr Hu|r a front x w Hr Hu Ha]; subst.
  - unfold done. unfold rewriteRule in Hstep.
    destruct (module_rules st' !! i) as [r|]; [|done].
    destruct (use r) as [[[s|f|l o]|]|a]; try done.
    + destruct (JS.includes _ _); [|done].
      destruct (formatLessLoader _ _); [|discriminate Hstep].
      injection Hstep as Hst. apply (f_equal (fun s => length (arrays s))) in Hst.
      simpl in Hst. rewrite length_app in Hst. simpl in Hst. lia.
    + destruct (existsb _ _); [done|].
      destruct (formatLessLoader _ _) eqn:Hf; [|discriminate Hstep].
      apply formatLessLoader_Normal in Hf as [item Hf].
      destruct (arrays st' !! a) as [items|] eqn:Ha; simpl in *; [|discriminate Hf].
      destruct items as [|x front _] using rev_ind; [discriminate Hf|].
      rewrite last_index, array_set_last, splice_in_last in Hstep.
      injection Hstep as Hst. apply (f_equal (fun s => arrays s !! a)) in Hst.
      simpl in Hst. rewrite list_lookup_insert_eq in Hst by (by eapply lookup_lt_Some).
      rewrite Ha in Hst. injection Hst as Hst. apply (f_equal length) in Hst.
      rewrite !length_app in Hst. simpl in Hst. lia.
  - unfold done. cbn [module_rules arrays].
    rewrite list_lookup_insert_eq by (by eapply lookup_lt_Some). cbn [use set_use].
    rewrite lookup_app_r by lia. rewrite Nat.sub_diag. cbn [lookup list_lookup default].
    exact (existsb_injected_loader [] [w]).
  - unfold done. cbn [module_rules arrays]. rewrite Hr, Hu.
    rewrite list_lookup_insert_eq by (by eapply lookup_lt_Some).
    apply existsb_injected_loader.
Qed.

Lemma forEach_done pre l st :
  (forall j, j ∈ pre -> done st j) ->
  forEach (rewriteRule options) (pre ++ l) st = forEach (rewriteRule options) l st.
Proof.
  induction pre as [|j pre IH]; intros H; simpl; [reflexivity|].
  rewrite rewriteRule_done by (apply H; left). apply IH. intros k Hk. apply H. by right.
Qed.

Lemma forEach_again l : forall pre st st' c,
  (forall j, j ∈ pre -> done st j) ->
  forEach (rewriteRule options) l st = (st', c) ->
  forEach (rewriteRule options) (pre ++ l) st' = (st', c).
Proof.
  induction l as [|i l IH]; intros pre st st' c Hpre; simpl.
  - intros [= <- <-]. by rewrite forEach_done.
  - destruct (rewriteRule options st i) as [st1 [[]|e]] eqn:Hstep.
    + intros Hrest.
      replace (pre ++ i :: l) with ((pre ++ [i]) ++ l) by (by rewrite <- app_assoc).
      apply (IH _ st1); [|exact Hrest].
      intros j Hj. apply elem_of_app in Hj as [Hj|Hj].
      * eapply done_preserved; eauto.
      * apply list_elem_of_singleton in Hj as ->. by eapply done_after.
    + intros [= <- <-]. apply rewriteRule_throw in Hstep as Est. subst st1.
      rewrite forEach_done by exact Hpre. simpl. by rewrite Hstep.
Qed.

End Idempotency.

Set Default Proof Using "Type".

(** C4, amended.  When no [RegExp] of the rules has the flag [g] or [y],
    running the rewrite a second time changes nothing and ends as the
    first run did: the same rules qualify, a rule whose array already
    holds the injected step is skipped, and every rule the first run
    rewrote holds it. *)
Theorem apply_environment_idempotent options st :
  loaderPath_is_recognised ->
  stateless (regexps st) ->
  apply_environment options (fst (apply_environment options st))
  = apply_environment options st
  /\ forall i ruleItem a items,
      module_rules st !! i = Some ruleItem ->
      use ruleItem = use_array a ->
      arrays st !! a = Some items ->
      existsb is_injected items = true ->
      rewriteRule options st i = (st, Normal tt).
Proof.
  intros Hrec Hst. split.
  - rewrite (apply_environment_stateless options st Hst).
    destruct (forEach (rewriteRule options) (fst (lessRules st)) st) as [st' c] eqn:Hrun.
    cbn [fst]. destruct (forEach_tests options _ _ _ _ Hrun) as [Ht Hre].
    rewrite apply_environment_stateless by (by rewrite Hre).
    rewrite (lessRules_tests st' st Ht Hre).
    apply (forEach_again options Hrec (fst (lessRules st)) [] st st' c); [|exact Hrun].
    intros j Hj. inversion Hj.
  - intros i ruleItem a items Hr Hu Ha Hex. apply rewriteRule_done.
    unfold done. by rewrite Hr, Hu, Ha.
Qed.

(** C5, amended.  For a rule whose [use] is an array that has a last
    element and does not hold the injected step, the callback that the
    hook runs on the qualifying rules replaces the last element by its
    wrapped form and puts the injected step right before it, in the same
    array: the array becomes the elements before the last, then the
    injected step, then the wrapped last element. *)
Theorem rewriteRule_array options st i ruleItem a front last_item :
  module_rules st !! i = Some ruleItem ->
  use ruleItem = use_array a ->
  arrays st !! a = Some (front ++ [last_item]) ->
  existsb is_injected (front ++ [last_item]) = false ->
  exists wrapped,
    formatLessLoader options (Some last_item) = Normal wrapped /\
    rewriteRule options st i
    = ({| module_rules := module_rules st;
          arrays := <[a := front ++ [loader options; wrapped]]> (arrays st);
          regexps := regexps st |},
       Normal tt).
Proof.
  intros Hr Hu Ha Hex. destruct (formatLessLoader_Some options last_item) as [w Hw].
  exists w. split; [exact Hw|].
  unfold rewriteRule. rewrite Hr, Hu, Ha. simpl. rewrite Hex.
  rewrite last_index, array_get_last, Hw. by rewrite array_set_last, splice_in_last.
Qed.

(** ** Further properties of the code *)

(** X1.  In a file whose top-level nodes are all declarations, for a name
    other than [__proto__] that the file declares more than once, or once,
    the map binds the name to the value of its last declaration, and no
    name has two entries. *)
Theorem parseLessVariables_last_declaration_wins filePath text before d after :
  readFileSync filePath = Some text ->
  less_parse text = Some {| rules := Some (map node_of (before ++ d :: after)) |} ->
  key_of d <> "__proto__" ->
  Forall (fun d' => key_of d' <> key_of d) after ->
  exists variables,
    completion (parseLessVariables filePath) = Normal variables /\
    JS.get variables (key_of d) = Some (rendered d) /\
    NoDup (map fst variables).
Proof.
  intros Hr Hp Hk Hafter. exists (fold_left store_declaration (before ++ d :: after) []).
  rewrite (parseLessVariables_declarations _ _ _ Hr Hp). simpl.
  split; [reflexivity|]. split.
  - by apply collect_get_last.
  - apply collect_keys_NoDup. constructor.
Qed.

(** X2.  A rule whose [use] is a string that contains [less-loader] gets a
    new array of two steps: the injected step, then the wrapped string. *)
Theorem rewriteRule_string options st i ruleItem s :
  module_rules st !! i = Some ruleItem ->
  use ruleItem = use_single (Some (UseString s)) ->
  JS.includes (JS.chars "less-loader") (JS.chars s) = true ->
  exists wrapped,
    formatLessLoader options (Some (UseString s)) = Normal wrapped /\
    rewriteRule options st i
    = ({| module_rules :=
            <[i := set_use ruleItem (use_array (length (arrays st)))]> (module_rules st);
          arrays := arrays st ++ [[loader options; wrapped]];
          regexps := regexps st |}, Normal tt).
Proof.
  intros Hr Hu Hs. destruct (formatLessLoader_Some options (UseString s)) as [w Hw].
  exists w. split; [exact Hw|]. unfold rewriteRule. by rewrite Hr, Hu, Hs, Hw.
Qed.

(** X3.  A rule whose [use] is neither an array nor a string that contains
    [less-loader] is left as it is. *)
Theorem rewriteRule_untouched options st i ruleItem u :
  module_rules st !! i = Some ruleItem ->
  use ruleItem = use_single u ->
  (forall s, u = Some (UseString s) ->
             JS.includes (JS.chars "less-loader") (JS.chars s) = false) ->
  rewriteRule options st i = (st, Normal tt).
Proof.
  intros Hr Hu Hs. apply rewriteRule_done. unfold done. rewrite Hr, Hu.
  destruct u as [[s|f|l o]|]; try done. by apply Hs.
Qed.

(** X4.  A rule whose [use] is an empty array makes the callback throw a
    [TypeError]; nothing is changed. *)
Theorem rewriteRule_empty_array options st i ruleItem a :
  module_rules st !! i = Some ruleItem ->
  use ruleItem = use_array a ->
  arrays st !! a = Some [] ->
  rewriteRule options st i
  = (st, Abrupt (TypeError "Cannot read properties of undefined (reading 'loader')")).
Proof.
  intros Hr Hu Ha. unfold rewriteRule. by rewrite Hr, Hu, Ha.
Qed.

Lemma dot_star_semi_no_semicolon l :
  free_of ";" l = true -> JS.dot_star_semi l = None.
Proof.
  induction l as [|c r IH]; simpl; [reflexivity|]. intros H.
  apply andb_true_iff in H as [Hc Hr]. rewrite (IH Hr).
  destruct (JS.is_line_terminator c); [reflexivity|].
  by destruct (Ascii.eqb c ";").
Qed.

Lemma free_of_drop c n l : free_of c l = true -> free_of c (drop n l) = true.
Proof.
  unfold free_of. rewrite !forallb_forall. intros H x Hx. apply H.
  apply list_elem_of_In. apply list_elem_of_In in Hx. by apply (subseteq_drop n l).
Qed.

Lemma replace_from_no_semicolon tmpl before s :
  free_of ";" s = true -> JS.replace_from tmpl before s = s.
Proof.
  revert before; induction s as [|c r IH]; intros before H.
  - by simp replace_from.
  - rewrite replace_from_no_match.
    + simpl in H. apply andb_true_iff in H as [_ Hr]. by rewrite IH.
    + unfold JS.match_import. destruct (JS.starts_with _ _); [|reflexivity].
      by rewrite dot_star_semi_no_semicolon by (by apply free_of_drop).
Qed.

(** X5.  Content that begins with an import and holds no [;] at all comes
    back as it is: the block is not put anywhere. *)
Theorem getLessAddictionData_import_without_semicolon
    options originData content context vars newContent :
  completion (lessDefaultAddictionData options) = Normal vars ->
  completion (originContent originData content context) = Normal newContent ->
  JS.test_starts_import (JS.trim newContent) = true ->
  free_of ";" (JS.chars newContent) = true ->
  completion (getLessAddictionData options originData content context) = Normal newContent.
Proof.
  intros Hv Hn Ht Hfree.
  rewrite (getLessAddictionData_completion _ _ _ _ _ _ Hv Hn).
  unfold place. rewrite Ht. unfold JS.replace_imports.
  by rewrite replace_from_no_semicolon, str_chars.
Qed.

(** ** Variable extraction, continued *)

Lemma assign_never_proto o k v :
  "__proto__" ∉ map fst o -> "__proto__" ∉ map fst (JS.assign o k v).
Proof.
  intros H. unfold JS.assign. destruct (String.eqb_spec k "__proto__") as [->|Hne]; [exact H|].
  rewrite elem_of_keys_define. intros [Hin|He]; [by apply H|by apply Hne].
Qed.

Lemma forEach_collect_never_proto l : forall acc variables,
  forEach_collect l acc = Normal variables ->
  "__proto__" ∉ map fst acc -> "__proto__" ∉ map fst variables.
Proof.
  induction l as [|rule l IH]; intros acc variables; simpl.
  - by intros [= <-].
  - unfold collect. destruct (name_slice1 _) as [key|]; [|discriminate].
    destruct (value_toCSS _) as [css|]; [|discriminate].
    intros H Hn. apply (IH _ _ H). by apply assign_never_proto.
Qed.

(** X6.  Whatever the file holds, the map that the extraction resolves to
    has no entry named [__proto__]. *)
Theorem parseLessVariables_never_proto filePath variables :
  completion (parseLessVariables filePath) = Normal variables ->
  "__proto__" ∉ map fst variables.
Proof.
  intros H. apply parseLessVariables_Normal in H as (text & all & _ & _ & H).
  destruct (rules all) as [l|]; simpl in H.
  - apply (forEach_collect_never_proto _ _ _ H). intros Hin. inversion Hin.
  - injection H as <-. intros Hin. inversion Hin.
Qed.

Lemma filter_filter_andb {A} (f g : A -> bool) l :
  List.filter f (List.filter g l) = List.filter (fun x => f x && g x) l.
Proof.
  induction l as [|a l IH]; simpl; [reflexivity|].
  destruct (g a); simpl; rewrite ?andb_false_r, ?andb_true_r.
  - destruct (f a); by rewrite IH.
  - exact IH.
Qed.

Lemma mem_app k l1 l2 : mem k (l1 ++ l2) = mem k l1 || mem k l2.
Proof. apply existsb_app. Qed.

Lemma collect_keys_order ds : forall acc,
  map fst (fold_left store_declaration ds acc)
  = map fst acc ++ missing_from (map fst acc) (first_occurrences (stored (map key_of ds))).
Proof.
  induction ds as [|d ds IH]; intros acc; simpl.
  - by rewrite app_nil_r.
  - rewrite IH. unfold store_declaration, JS.assign. unfold stored. simpl.
    destruct (String.eqb (key_of d) "__proto__"); simpl; [reflexivity|].
    fold (stored (map key_of ds)). rewrite keys_define. unfold missing_from. simpl.
    rewrite !filter_filter_andb.
    destruct (mem (key_of d) (map fst acc)) eqn:Hm; simpl.
    + f_equal. apply List.filter_ext. intros x.
      destruct (String.eqb_spec x (key_of d)) as [->|_]; simpl.
      * by rewrite Hm.
      * by rewrite andb_true_r.
    + rewrite <- app_assoc. simpl. do 2 f_equal. apply List.filter_ext. intros x.
      rewrite mem_app. simpl. by rewrite orb_false_r, negb_orb.
Qed.

(** X7.  For a file whose top-level nodes are all declarations,
    [Object.keys] of the map lists the names that are array indices in
    ascending numeric order and then the other names in the order in which
    they are first declared; [__proto__] is not among them. *)
Theorem parseLessVariables_first_declaration_order filePath text ds :
  readFileSync filePath = Some text ->
  less_parse text = Some {| rules := Some (map node_of ds) |} ->
  exists variables,
    completion (parseLessVariables filePath) = Normal variables /\
    JS.keys variables = JS.ordered_keys (first_occurrences (stored (map key_of ds))).
Proof.
  intros Hr Hp. exists (fold_left store_declaration ds []).
  rewrite (parseLessVariables_declarations _ _ _ Hr Hp). simpl. split; [reflexivity|].
  unfold JS.keys, JS.OwnPropertyKeys, JS.ordered_keys. cbv zeta.
  rewrite collect_keys_order. simpl. by rewrite missing_from_nil.
Qed.

(** ** Theme variables, continued *)

Lemma parseLessVariables_trace filePath :
  exists t, trace (parseLessVariables filePath) = ReadFile filePath :: t /\
            existsb is_read t = false.
Proof.
  unfold parseLessVariables, fs_readFileSync, less_parse_async.
  destruct (readFileSync filePath) as [text|]; cbn; [|by eexists].
  destruct (less_parse text) as [all|]; cbn; [|by eexists].
  destruct (forEach_rules (rules all) []); cbn; by eexists.
Qed.

Lemma trace_bind {A B} (m : Eff A) (f : A -> Eff B) :
  exists t, trace (m ≫= f) = trace m ++ t.
Proof.
  destruct m as [t [a|e]]; unfold mbind, Eff_bind; simpl.
  - destruct (f a) as [t' c]. by exists t'.
  - exists []. by rewrite app_nil_r.
Qed.

Lemma until_await_reads t :
  existsb is_read t = false ->
  existsb is_read (fst (until_await t)) = false /\
  existsb is_read (snd (until_await t)) = false.
Proof.
  induction t as [|ev t IH]; simpl; [done|].
  destruct ev as [path|text|label e]; simpl; [discriminate|done|exact IH].
Qed.

Lemma getThemeVars_trace options :
  trace (getThemeVars options)
  = trace (Promise_all2 (lessToJS (darkPath options)) (lessToJS (lightPath options))).
Proof.
  unfold getThemeVars. fold (darkPath options) (lightPath options).
  destruct (Promise_all2 _ _) as [t [[d l]|e]]; unfold mbind, Eff_bind; simpl;
    by rewrite ?app_nil_r.
Qed.

Lemma getThemeVars_reads options :
  exists t1 t2,
    trace (getThemeVars options)
    = ReadFile (darkPath options) :: t1 ++ ReadFile (lightPath options) :: t2 /\
    existsb is_read (t1 ++ t2) = false.
Proof.
  destruct (parseLessVariables_trace (darkPath options)) as (t1 & E1 & H1).
  destruct (parseLessVariables_trace (lightPath options)) as (t2 & E2 & H2).
  destruct (until_await_reads _ H1) as [H1a H1b].
  destruct (until_await_reads _ H2) as [H2a H2b].
  rewrite getThemeVars_trace. unfold Promise_all2, lessToJS, trace at 1. cbn [fst].
  rewrite E1, E2. cbn [until_await fst snd].
  exists (fst (until_await t1)),
         (fst (until_await t2) ++
          (if dark_parse_settles_first
           then snd (until_await t1) ++ snd (until_await t2)
           else snd (until_await t2) ++ snd (until_await t1))).
  split; [reflexivity|].
  rewrite !existsb_app, H1a, H2a. destruct dark_parse_settles_first;
    by rewrite existsb_app, ?H1b, ?H2b.
Qed.

Lemma trace_bind_reads {A B} (m : Eff A) (f : A -> Eff B) d l :
  (exists t1 t2, trace m = ReadFile d :: t1 ++ ReadFile l :: t2) ->
  exists t1 t2, trace (m ≫= f) = ReadFile d :: t1 ++ ReadFile l :: t2.
Proof.
  intros (t1 & t2 & E). destruct (trace_bind m f) as [u ->].
  exists t1, (t2 ++ u). rewrite E. simpl. by rewrite <- app_assoc.
Qed.

(** X8.  Every call of [getThemeVars] reads the dark file, then the light
    file, each once and nothing else, whether or not the reads and the
    parses succeed: a failure of the dark variant does not stop the read
    of the light one.  With no user options the files are [dark.less] and
    [light.less] in [src/theme] under the working directory. *)
Theorem getThemeVars_reads_both_files options :
  (exists t1 t2,
      trace (getThemeVars options)
      = ReadFile (darkPath options) :: t1 ++ ReadFile (lightPath options) :: t2 /\
      existsb is_read (t1 ++ t2) = false) /\
  darkPath (CSSThemePlugin None) = path_resolve (path_resolve cwd "src/theme") "dark.less" /\
  lightPath (CSSThemePlugin None) = path_resolve (path_resolve cwd "src/theme") "light.less".
Proof. split; [apply getThemeVars_reads|split; reflexivity]. Qed.

(** X9.  The content-prepend function keeps nothing between calls: every
    call reads the dark file and then the light file again. *)
Theorem getLessAddictionData_reads_theme_files options originData content context :
  exists t1 t2,
    trace (getLessAddictionData options originData content context)
    = ReadFile (darkPath options) :: t1 ++ ReadFile (lightPath options) :: t2.
Proof.
  unfold getLessAddictionData, lessDefaultAddictionData, getLessVariables.
  do 3 apply trace_bind_reads.
  destruct (getThemeVars_reads options) as (t1 & t2 & E & _). by exists t1, t2.
Qed.

(** X10.  When the extraction succeeds and the user's prepend function is
    rejected, the content-prepend function is rejected with the same
    error. *)
Theorem getLessAddictionData_user_function_rejected options f content context vars e :
  completion (lessDefaultAddictionData options) = Normal vars ->
  f content context = Abrupt e ->
  completion (getLessAddictionData options (AD_function f) content context) = Abrupt e.
Proof.
  intros Hv Hf. unfold getLessAddictionData.
  rewrite completion_bind, Hv. rewrite completion_bind. simpl. by rewrite Hf.
Qed.

(** ** Content prepend, continued *)

Lemma dot_star_semi_line body nl rest :
  Forall not_terminator body ->
  JS.is_line_terminator nl = true ->
  JS.dot_star_semi (body ++ semicolon :: nl :: rest) = Some (body ++ [semicolon], nl :: rest).
Proof.
  intros HF Hnl. induction HF as [|c body Hc _ IH]; simpl.
  - by rewrite Hnl.
  - unfold not_terminator in Hc. by rewrite Hc, IH.
Qed.

Lemma replace_from_skip tmpl gap : forall before rest,
  free_of "@" gap = true ->
  JS.replace_from tmpl before (gap ++ rest)
  = gap ++ JS.replace_from tmpl (before ++ gap) rest.
Proof.
  induction gap as [|c gap IH]; intros before rest H; simpl.
  - by rewrite app_nil_r.
  - simpl in H. apply andb_true_iff in H as [Hc Hg].
    rewrite replace_from_no_match.
    + rewrite IH by exact Hg. by rewrite <- app_assoc.
    + unfold JS.match_import.
      change (JS.starts_with JS.at_import (c :: gap ++ rest))
        with (Ascii.eqb "@" c && JS.starts_with (JS.chars "import") (gap ++ rest)).
      rewrite Ascii.eqb_sym. by destruct (Ascii.eqb c "@").
Qed.

Lemma replace_from_import_lines block lines : forall before,
  dollar ∉ block ->
  Forall one_import lines ->
  JS.replace_from (dollar :: "1"%char :: block) before (concat (map (import_line []) lines))
  = concat (map (import_line block) lines).
Proof.
  intros before Hb HF; revert before.
  induction HF as [|[body gap] lines (Hbody & (nl & g & Eg & Hnl) & Hat) _ IH];
    intros before; cbn [concat map].
  - by simp replace_from.
  - cbn [fst snd] in Eg, Hbody, Hat. subst gap. cbn [concat map].
    unfold import_line at 1 3. cbn [fst snd].
    rewrite (replace_from_match _ _ _ (JS.at_import ++ body ++ [semicolon])
               (nl :: g ++ concat (map (import_line []) lines))).
    + rewrite GetSubstitution_capture1, (GetSubstitution_plain _ _ _ _ _ Hb).
      change (nl :: g ++ concat (map (import_line []) lines))
        with ((nl :: g) ++ concat (map (import_line []) lines)).
      rewrite (replace_from_skip _ (nl :: g) _ _ Hat), IH.
      rewrite <- !app_assoc. cbn [app]. by rewrite <- !app_assoc.
    + unfold JS.match_import. rewrite <- !app_assoc. cbn [app].
      rewrite starts_with_app, drop_app_length.
      by rewrite (dot_star_semi_line _ _ _ Hbody Hnl).
Qed.

Lemma trim_end_snoc l c :
  JS.trim_end (l ++ [c]) = if JS.is_white_space c then JS.trim_end l else l ++ [c].
Proof.
  unfold JS.trim_end. rewrite rev_unit. simpl.
  destruct (JS.is_white_space c); [reflexivity|].
  simpl. by rewrite rev_involutive.
Qed.

Lemma trim_end_at_import r : JS.trim_end (JS.at_import ++ r) = JS.at_import ++ JS.trim_end r.
Proof.
  induction r as [|c r IH] using rev_ind; [reflexivity|].
  rewrite app_assoc, !trim_end_snoc, IH.
  destruct (JS.is_white_space c); [reflexivity|]. by rewrite app_assoc.
Qed.

Lemma test_starts_import_at_import s r :
  JS.chars s = JS.at_import ++ r -> JS.test_starts_import (JS.trim s) = true.
Proof.
  intros E. unfold JS.test_starts_import, JS.trim. rewrite E.
  change (JS.trim_start (JS.at_import ++ r)) with (JS.at_import ++ r).
  rewrite trim_end_at_import, chars_str. apply starts_with_app.
Qed.

(** X11.  When the content to compile is a sequence of lines that each
    begin with one import statement and end right after its [;], with no
    [@] before the next such line, and the block holds no [$], the
    content-prepend function puts the block right after the [;] of every
    one of these lines and changes nothing else. *)
Theorem getLessAddictionData_import_lines
    options originData content context vars newContent line lines :
  completion (lessDefaultAddictionData options) = Normal vars ->
  completion (originContent originData content context) = Normal newContent ->
  free_of "$" (JS.chars vars) = true ->
  Forall one_import (line :: lines) ->
  JS.chars newContent = concat (map (import_line []) (line :: lines)) ->
  completion (getLessAddictionData options originData content context)
  = Normal (JS.str (concat (map (import_line (JS.chars vars)) (line :: lines)))).
Proof.
  intros Hv Hn Hfree HF E.
  rewrite (getLessAddictionData_completion _ _ _ _ _ _ Hv Hn).
  unfold place. rewrite (test_starts_import_at_import newContent
    (fst line ++ semicolon :: snd line ++ concat (map (import_line []) lines))).
  - unfold JS.replace_imports. rewrite E. do 2 f_equal.
    change (JS.chars ("$1" +:+ vars)) with ("$"%char :: "1"%char :: JS.chars vars).
    apply replace_from_import_lines; [|exact HF]. by apply free_of_not_elem_of.
  - rewrite E. simpl. unfold import_line at 1. simpl. by rewrite <- !app_assoc.
Qed.

(** ** The rules of the build, continued *)

(** X12.  A step given as an object keeps its loader and its other
    options; its [additionalData] becomes a function that first computes
    what the user's [additionalData] gives for the content (a string is put
    before the content, a function is called) and then places the block in
    that text. *)
Theorem formatLessLoader_wraps_user_data options l lo content context vars newContent :
  completion (lessDefaultAddictionData options) = Normal vars ->
  completion (originContent (userAdditionalData (Some lo)) content context)
  = Normal newContent ->
  exists wrapped,
    formatLessLoader options (Some (UseObject l (Some lo)))
    = Normal (UseObject l (Some {| additionalData := Some wrapped;
                                   otherOptions := otherOptions lo |})) /\
    completion (originContent wrapped content context) = Normal (place vars newContent).
Proof.
  intros Hv Hn. eexists. split; [reflexivity|].
  cbn [originContent]. rewrite completion_bind, Hv. rewrite completion_bind, Hn. reflexivity.
Qed.

(** X13.  A string step whose name ends in [less-loader] becomes an object
    with the resolved loader and a function that places the block in the
    content; a string step that names [less-loader] somewhere else, as one
    with a query does, is kept as the string it is, with no function. *)
Theorem formatLessLoader_string options s :
  (JS.ends_with (JS.chars "less-loader") (JS.chars s) = true ->
   exists wrapped,
     formatLessLoader options (Some (UseString s))
     = Normal (UseObject (Some (require_resolve "less-loader"))
                 (Some {| additionalData := Some wrapped; otherOptions := [] |})) /\
     forall content context vars,
       completion (lessDefaultAddictionData options) = Normal vars ->
       completion (originContent wrapped content context) = Normal (place vars content)) /\
  (JS.ends_with (JS.chars "less-loader") (JS.chars s) = false ->
   formatLessLoader options (Some (UseString s)) = Normal (UseString s)).
Proof.
  unfold formatLessLoader. cbn [ToString]. split; intros ->; [|reflexivity].
  eexists. split; [reflexivity|]. intros content context vars Hv.
  cbn [originContent]. rewrite completion_bind, Hv. reflexivity.
Qed.

Lemma rewriteRule_other_rule options st i st' c j :
  rewriteRule options st i = (st', c) -> j <> i ->
  module_rules st' !! j = module_rules st !! j.
Proof.
  intros Hstep Hne. pose proof (rewriteRule_cases options st i) as Hc. rewrite Hstep in Hc.
  inversion Hc; subst; try done. cbn [module_rules]. by rewrite list_lookup_insert_ne.
Qed.

Lemma forEach_other_rule options l j : forall st st' c,
  forEach (rewriteRule options) l st = (st', c) -> j ∉ l ->
  module_rules st' !! j = module_rules st !! j.
Proof.
  induction l as [|i l IH]; intros st st' c; simpl.
  - by intros [= <- <-].
  - intros Hrun Hj. apply not_elem_of_cons in Hj as [Hne Hj].
    destruct (rewriteRule options st i) as [st1 [[]|e]] eqn:Hstep.
    + rewrite (IH _ _ _ Hrun Hj). by eapply rewriteRule_other_rule.
    + injection Hrun as <- <-. by eapply rewriteRule_other_rule.
Qed.

Lemma forEach_other_array options a items l : forall st st' c,
  forEach (rewriteRule options) l st = (st', c) ->
  arrays st !! a = Some items ->
  (forall j r, j ∈ l -> module_rules st !! j = Some r -> use r <> use_array a) ->
  arrays st' !! a = Some items.
Proof.
  induction l as [|i l IH]; intros st st' c; simpl.
  - by intros [= <- <-].
  - intros Hrun Ha Hno.
    assert (Hnext : forall st1 c1, rewriteRule options st i = (st1, c1) ->
              arrays st1 !! a = Some items /\
              forall j r, j ∈ l -> module_rules st1 !! j = Some r -> use r <> use_array a).
    { intros st1 c1 Hstep. pose proof (rewriteRule_cases options st i) as Hc.
      rewrite Hstep in Hc.
      inversion Hc as [| |r s w Hr Hu|r b front x w Hr Hu Hb]; subst.
      - split; [exact Ha|]. intros j r Hj. apply Hno. by right.
      - split; [exact Ha|]. intros j r Hj. apply Hno. by right.
      - cbn [module_rules arrays]. split; [by apply lookup_app_l_Some|].
        intros j rj Hj. destruct (decide (j = i)) as [->|Hne].
        + rewrite list_lookup_insert_eq by (by eapply lookup_lt_Some).
          intros [= <-]. cbn [use set_use]. intros [= E].
          apply lookup_lt_Some in Ha. lia.
        + rewrite list_lookup_insert_ne by done. apply Hno. by right.
      - cbn [module_rules arrays]. split.
        + rewrite list_lookup_insert_ne; [exact Ha|].
          intros ->. apply (Hno i r); [left|exact Hr|exact Hu].
        + intros j rj Hj. apply Hno. by right. }
    destruct (rewriteRule options st i) as [st1 [[]|e]] eqn:Hstep.
    + destruct (Hnext _ _ eq_refl) as [Ha1 Hno1]. by apply (IH _ _ _ Hrun).
    + injection Hrun as <- <-. by destruct (Hnext _ _ eq_refl).
Qed.

(** X14.  The rewrite adds no rule and removes none and leaves the [test]
    of every rule in place.  A rule that the filter does not select keeps
    its [use]; the steps of the array it refers to stay as they are too
    when no selected rule refers to the same array, an array shared with a
    selected rule being rewritten in place. *)
Theorem apply_environment_keeps_other_rules options st st' c :
  apply_environment options st = (st', c) ->
  map test (module_rules st') = map test (module_rules st) /\
  forall j r,
    module_rules st !! j = Some r -> j ∉ fst (lessRules st) ->
    module_rules st' !! j = Some r /\
    forall a items,
      use r = use_array a -> arrays st !! a = Some items ->
      (forall i ri, i ∈ fst (lessRules st) -> module_rules st !! i = Some ri ->
                    use ri <> use_array a) ->
      arrays st' !! a = Some items.
Proof.
  isolate. intros Hrun. split.
  - by apply (forEach_tests options _ _ _ _ Hrun).
  - intros j r Hr Hj. split.
    + rewrite <- Hr. by apply (forEach_other_rule _ _ _ _ _ _ Hrun).
    + intros a items _ Ha Hno. by apply (forEach_other_array _ _ _ _ _ _ _ Hrun Ha).
Qed.

(** X15.  An array that no rule matching [index.less], that is no rule
    that the filter selects, has as its [use] comes out of the rewrite as
    it went in. *)
Theorem apply_environment_keeps_other_arrays options st st' c a items :
  apply_environment options st = (st', c) ->
  arrays st !! a = Some items ->
  (forall j r, j ∈ fst (lessRules st) -> module_rules st !! j = Some r ->
               use r <> use_array a) ->
  arrays st' !! a = Some items.
Proof.
  isolate. intros Hrun Ha Hno. by apply (forEach_other_array _ _ _ _ _ _ _ Hrun Ha).
Qed.

Lemma forEach_done_preserved options l j : forall st st' c,
  loaderPath_is_recognised ->
  forEach (rewriteRule options) l st = (st', c) -> done st j -> done st' j.
Proof.
  induction l as [|i l IH]; intros st st' c Hrec; simpl.
  - by intros [= <- <-].
  - destruct (rewriteRule options st i) as [st1 [[]|e]] eqn:Hstep.
    + intros Hrun Hd. apply (IH _ _ _ Hrec Hrun). by eapply done_preserved.
    + intros [= <- <-] Hd. by eapply done_preserved.
Qed.

Lemma forEach_all_done options l : forall st st',
  loaderPath_is_recognised ->
  forEach (rewriteRule options) l st = (st', Normal tt) ->
  forall j, j ∈ l -> done st' j.
Proof.
  induction l as [|i l IH]; intros st st' Hrec; simpl.
  - intros _ j Hj. inversion Hj.
  - destruct (rewriteRule options st i) as [st1 [[]|e]] eqn:Hstep; [|discriminate].
    intros Hrun j Hj. apply elem_of_cons in Hj as [->|Hj].
    + apply (forEach_done_preserved _ _ _ _ _ _ Hrec Hrun). by eapply done_after.
    + by apply (IH _ _ Hrec Hrun).
Qed.

(** X16.  After a rewrite that ends normally, with a loader path that
    contains [theme-var-loader], every rule matching [index.less], that is
    every rule that the filter selected, is one the rewrite has nothing
    left to do for: a [use] array holds the injected step, and no [use] is
    left a string that names [less-loader]. *)
Theorem apply_environment_all_done options st st' j r :
  loaderPath_is_recognised ->
  apply_environment options st = (st', Normal tt) ->
  module_rules st' !! j = Some r ->
  j ∈ fst (lessRules st) ->
  match use r with
  | use_array a =>
      exists items, arrays st' !! a = Some items /\ existsb is_injected items = true
  | use_single (Some (UseString s)) =>
      JS.includes (JS.chars "less-loader") (JS.chars s) = false
  | use_single _ => True
  end.
Proof.
  isolate. intros Hrec Hrun Hr Hj.
  assert (Hd : done st' j) by (by apply (forEach_all_done _ _ _ _ Hrec Hrun)).
  unfold done in Hd. rewrite Hr in Hd.
  destruct (use r) as [[[s|f|l o]|]|a]; try done.
  by apply existsb_injected_default.
Qed.

(** ** The [processAssets] hook *)



Lemma trim_start_white w c r :
  white w = true -> JS.is_white_space c = false -> JS.trim_start (w ++ c :: r) = c :: r.
Proof.
  induction w as [|x w IH]; simpl; intros Hw Hc.
  - by rewrite Hc.
  - apply andb_true_iff in Hw as [-> Hw]. by apply IH.
Qed.


Lemma match_arrow_open w1 w2 w3 w4 rest :
  white w1 = true -> white w2 = true -> white w3 = true -> white w4 = true ->
  JS.match_arrow (arrow_open w1 w2 w3 w4 ++ rest) = Some (arrow_open w1 w2 w3 w4, rest).
Proof.
  intros H1 H2 H3 H4.
  assert (El : arrow_open w1 w2 w3 w4 ++ rest
               = "("%char :: w1 ++ "("%char :: w2 ++ ")"%char :: w3 ++ "="%char :: ">"%char
                 :: w4 ++ "{"%char :: rest).
  { unfold arrow_open. reassociate. }
  unfold JS.match_arrow. rewrite El at 1. cbn [JS.eat]. rewrite Ascii.eqb_refl.
  cbn [mbind option_bind].
  rewrite (trim_start_white w1) by done. cbn [JS.eat]. rewrite Ascii.eqb_refl.
  cbn [mbind option_bind].
  rewrite (trim_start_white w2) by done. cbn [JS.eat]. rewrite Ascii.eqb_refl.
  cbn [mbind option_bind].
  rewrite (trim_start_white w3) by done. cbn [JS.eat]. rewrite Ascii.eqb_refl.
  cbn [mbind option_bind JS.eat]. rewrite Ascii.eqb_refl. cbn [mbind option_bind].
  rewrite (trim_start_white w4) by done. cbn [JS.eat]. rewrite Ascii.eqb_refl.
  cbn [mbind option_bind].
  by rewrite length_app, Nat.add_sub, take_app_length.
Qed.

Lemma replace_first_from_skip tmpl pre : forall before s,
  free_of "(" pre = true ->
  JS.replace_first_from tmpl before (pre ++ s)
  = pre ++ JS.replace_first_from tmpl (before ++ pre) s.
Proof.
  induction pre as [|c pre IH]; intros before s H; simpl.
  - by rewrite app_nil_r.
  - simpl in H. apply andb_true_iff in H as [Hc Hp].
    unfold JS.match_arrow. cbn [JS.eat]. destruct (Ascii.eqb c "("); [discriminate|].
    cbn [mbind option_bind]. rewrite IH by exact Hp. by rewrite <- app_assoc.
Qed.







Lemma keys_define_present o k v v' :
  JS.get o k = Some v -> map fst (JS.define o k v') = map fst o.
Proof.
  intros H. rewrite keys_define.
  assert (Hk : k ∈ map fst o) by (apply get_is_Some; eauto).
  apply mem_elem_of in Hk. by rewrite Hk.
Qed.

Lemma find_Some_first {A} (f : A -> bool) l x :
  find f l = Some x -> f x = true /\ x ∈ l.
Proof.
  intros H. apply find_some in H as [Hin Hf]. split; [exact Hf|by apply list_elem_of_In].
Qed.

Lemma spliceEntry_frame options themeCache b b' s :
  spliceEntry options themeCache b = (b', s) ->
  entry_keys b' = entry_keys b /\ chunks b' = chunks b /\
  antdThemeCache b' = antdThemeCache b /\
  map fst (assets b') = map fst (assets b) /\
  (s <> callback_called -> assets b' = assets b).
Proof.
  unfold spliceEntry.
  destruct (find _ (chunks b)) as [chunkItem|]; [|by intros [= <- <-]].
  destruct (find _ (chunk_files chunkItem)) as [assetsName|]; [|by intros [= <- <-]].
  destruct (JS.get (assets b) assetsName) as [entryContent|] eqn:Hg; [|by intros [= <- <-]].
  intros [= <- <-]. cbn [set_assets entry_keys chunks antdThemeCache assets].
  repeat split; try done. by eapply keys_define_present.
Qed.

Lemma spliceEntry_changes options themeCache b b' s k :
  spliceEntry options themeCache b = (b', s) ->
  JS.get (assets b') k <> JS.get (assets b) k ->
  exists chunkItem,
    find (name_is (entryName b)) (chunks b) = Some chunkItem /\
    find (fun item => JS.ends_with (JS.chars "js") (JS.chars item)) (chunk_files chunkItem)
    = Some k.
Proof.
  unfold spliceEntry. fold (entryName b).
  destruct (find _ (chunks b)) as [chunkItem|]; [|by intros [= <- <-]].
  destruct (find _ (chunk_files chunkItem)) as [assetsName|] eqn:Hf; [|by intros [= <- <-]].
  destruct (JS.get (assets b) assetsName) as [entryContent|] eqn:Hg; [|by intros [= <- <-]].
  intros [= <- <-]. cbn [set_assets assets]. rewrite get_define.
  destruct (String.eqb_spec assetsName k) as [<-|_]; [|done]. eauto.
Qed.

Lemma set_cache_same b themeCache :
  antdThemeCache b = Some themeCache -> set_cache b themeCache = b.
Proof. destruct b. simpl. by intros ->. Qed.

Lemma processAssets_cases options b :
  (exists themeCache,
      themeCache_used options b = Some themeCache /\
      snd (processAssets options b) = spliceEntry options themeCache (set_cache b themeCache)) \/
  (exists e,
      themeCache_used options b = None /\
      completion (getThemeVars options) = Abrupt e /\
      processAssets options b = (trace (getThemeVars options), (b, rejected e))).
Proof.
  unfold processAssets, themeCache_used, completion, trace.
  destruct (antdThemeCache b) as [themeCache|] eqn:Hc.
  - left. exists themeCache. by rewrite set_cache_same.
  - destruct (getThemeVars options) as [t [tv|e]]; simpl; eauto.
Qed.

(** X17.  However the hook ends, it leaves the entry names and the chunks
    as they are and neither adds, removes nor reorders an asset; when it
    does not end by calling the callback, the assets keep their texts
    too. *)
Theorem processAssets_frame options b t b' s :
  processAssets options b = (t, (b', s)) ->
  entry_keys b' = entry_keys b /\ chunks b' = chunks b /\
  map fst (assets b') = map fst (assets b) /\
  (s <> callback_called -> assets b' = assets b).
Proof.
  isolate. intros H.
  destruct (processAssets_cases options b) as [(c & _ & E)|(e & _ & _ & E)].
  - rewrite H in E. simpl in E. symmetry in E.
    by apply spliceEntry_frame in E as (? & ? & _ & ? & ?).
  - rewrite H in E. by injection E as _ -> _.
Qed.

(** X18.  The only asset whose text the hook can change is the first file
    with a name ending in [js] of the first chunk that bears the name of
    the entry. *)
Theorem processAssets_changes_entry_only options b t b' s k :
  processAssets options b = (t, (b', s)) ->
  JS.get (assets b') k <> JS.get (assets b) k ->
  exists chunkItem,
    find (name_is (entryName b)) (chunks b) = Some chunkItem /\
    find (fun item => JS.ends_with (JS.chars "js") (JS.chars item)) (chunk_files chunkItem)
    = Some k.
Proof.
  isolate. intros H Hk.
  destruct (processAssets_cases options b) as [(c & _ & E)|(e & _ & _ & E)].
  - rewrite H in E. simpl in E. symmetry in E.
    by apply (spliceEntry_changes _ _ _ _ _ k) in E.
  - rewrite H in E. injection E as _ -> _. done.
Qed.

(** X19.  Once the theme variables are at hand, whether cached or
    extracted, the hook leaves them in the cache, also when it then finds
    no entry chunk; a later run reads no file and works with the same
    variables.  A run that finds the cache filled reads no file. *)
Theorem processAssets_reads_theme_once options b themeCache t b' s :
  themeCache_used options b = Some themeCache ->
  processAssets options b = (t, (b', s)) ->
  antdThemeCache b' = Some themeCache /\
  fst (processAssets options b') = [] /\
  themeCache_used options b' = Some themeCache /\
  (antdThemeCache b = Some themeCache -> t = []).
Proof.
  isolate. intros Hu H.
  assert (Hc : antdThemeCache b' = Some themeCache).
  { destruct (processAssets_cases options b) as [(c & Hc & E)|(e & Hn & _)]; [|congruence].
    rewrite H in E. simpl in E. symmetry in E.
    apply spliceEntry_frame in E as (_ & _ & -> & _). simpl. congruence. }
  split; [exact Hc|]. unfold processAssets, themeCache_used. rewrite Hc.
  repeat split. intros Hb. unfold processAssets in H. rewrite Hb in H. by injection H as <-.
Qed.

(** X20.  With no cache and an extraction that is rejected, the hook is
    rejected with the error of the extraction, after the reads of the
    extraction; it stores nothing and touches no asset. *)
Theorem processAssets_extraction_rejected options b e :
  antdThemeCache b = None ->
  completion (getThemeVars options) = Abrupt e ->
  processAssets options b = (trace (getThemeVars options), (b, rejected e)) /\
  exists t1 t2,
    trace (getThemeVars options)
    = ReadFile (darkPath options) :: t1 ++ ReadFile (lightPath options) :: t2.
Proof.
  intros Hb He. split.
  - unfold processAssets. rewrite Hb. unfold completion in He. unfold trace.
    destruct (getThemeVars options) as [t c]. simpl in He. by subst c.
  - destruct (getThemeVars_reads options) as (t1 & t2 & E & _). eauto.
Qed.

Lemma ordered_keys_named ks :
  Forall (fun k => JS.is_array_index k = false) ks -> JS.ordered_keys ks = ks.
Proof.
  intros H. unfold JS.ordered_keys.
  assert (E1 : List.filter JS.is_array_index ks = []).
  { induction H as [|k ks Hk _ IH]; simpl; [reflexivity|]. by rewrite Hk. }
  assert (E2 : List.filter (fun k => negb (JS.is_array_index k)) ks = ks).
  { clear E1. induction H as [|k ks Hk _ IH]; simpl; [reflexivity|].
    rewrite Hk. simpl. by f_equal. }
  by rewrite E1, E2.
Qed.

Lemma find_none_Forall {A} (f : A -> bool) l :
  Forall (fun x => f x = false) l -> find f l = None.
Proof. induction 1 as [|x l Hx _ IH]; simpl; [reflexivity|]. by rewrite Hx. Qed.

(** X21.  When the theme variables are at hand, the entry object has no
    array-index key and no chunk bears the name of its first key, the hook
    is rejected with [entry file not found] and every asset keeps its
    text. *)
Theorem processAssets_entry_not_found options b themeCache e rest :
  themeCache_used options b = Some themeCache ->
  entry_keys b = e :: rest ->
  Forall (fun k => JS.is_array_index k = false) (entry_keys b) ->
  Forall (fun item => chunk_name item <> name_string e) (chunks b) ->
  snd (snd (processAssets options b)) = rejected_entry_not_found /\
  assets (fst (snd (processAssets options b))) = assets b.
Proof.
  isolate. intros Hu He Hk Hc.
  destruct (processAssets_cases options b) as [(c & _ & ->)|(e' & Hn & _)];
    [|rewrite Hu in Hn; discriminate Hn].
  unfold spliceEntry. cbn [set_cache entry_keys chunks assets].
  rewrite (ordered_keys_named _ Hk), He. cbn [head].
  rewrite find_none_Forall; [done|].
  eapply Forall_impl; [exact Hc|]. intros item Hi. unfold name_is. cbv beta in Hi.
  destruct (chunk_name item) as [n| |]; try reflexivity.
  apply String.eqb_neq. intros ->. by apply Hi.
Qed.


(** X23.  When the theme variables are at hand and the entry asset holds
    the opening of an arrow function without parameters behind a
    parenthesis, with no [(] before it, the hook puts the script right
    after the first such opening, keeps the rest of the text and every
    other asset, and calls the callback; the script is required to hold no
    [$]. *)
Theorem processAssets_splices_script
    options b themeCache chunkItem assetsName entryContent pre w1 w2 w3 w4 rest :
  themeCache_used options b = Some themeCache ->
  find (name_is (entryName b)) (chunks b) = Some chunkItem ->
  find (fun item => JS.ends_with (JS.chars "js") (JS.chars item)) (chunk_files chunkItem)
  = Some assetsName ->
  JS.get (assets b) assetsName = Some entryContent ->
  JS.chars entryContent = pre ++ arrow_open w1 w2 w3 w4 ++ rest ->
  free_of "(" pre = true ->
  white w1 = true -> white w2 = true -> white w3 = true -> white w4 = true ->
  free_of "$" (JS.chars (scriptContent options themeCache)) = true ->
  snd (snd (processAssets options b)) = callback_called /\
  JS.get (assets (fst (snd (processAssets options b)))) assetsName
  = Some (JS.str (pre ++ arrow_open w1 w2 w3 w4
                  ++ JS.chars (scriptContent options themeCache) ++ rest)) /\
  forall k, k <> assetsName ->
            JS.get (assets (fst (snd (processAssets options b)))) k = JS.get (assets b) k.
Proof.
  isolate. intros Hu Hc Hf Hg Hs Hpre H1 H2 H3 H4 Hd.
  destruct (processAssets_cases options b) as [(c & Hu' & ->)|(e' & Hn & _)];
    [|rewrite Hu in Hn; discriminate Hn].
  assert (c = themeCache) as -> by congruence.
  unfold spliceEntry. cbn [set_cache entry_keys chunks assets]. fold (entryName b).
  rewrite Hc, Hf, Hg. cbn [fst snd set_assets assets]. split; [reflexivity|]. split.
  - rewrite get_define, String.eqb_refl. do 2 f_equal.
    unfold JS.replace_arrow. rewrite Hs.
    change (JS.chars ("$1" +:+ scriptContent options themeCache))
      with ("$"%char :: "1"%char :: JS.chars (scriptContent options themeCache)).
    rewrite replace_first_from_skip by exact Hpre.
    destruct (arrow_open w1 w2 w3 w4 ++ rest) as [|x l] eqn:El; [discriminate El|].
    cbn [JS.replace_first_from]. rewrite <- El. rewrite match_arrow_open by done.
    rewrite GetSubstitution_capture1, GetSubstitution_plain
      by (by apply free_of_not_elem_of).
    by rewrite <- !app_assoc.
  - intros k Hk. rewrite get_define.
    destruct (String.eqb_spec assetsName k) as [->|_]; [done|reflexivity].
Qed.

Lemma head_StronglySorted (R : relation string) `{!Reflexive R} l e k :
  StronglySorted R l -> head l = Some e -> k ∈ l -> R e k.
Proof.
  intros Hs He Hk. destruct Hs as [|x l _ Hall]; [discriminate He|].
  injection He as ->. apply elem_of_cons in Hk as [->|Hk]; [reflexivity|].
  rewrite List.Forall_forall in Hall. by apply Hall, list_elem_of_In.
Qed.

#[local] Instance index_le_reflexive : Reflexive JS.index_le.
Proof. intros a. unfold JS.index_le. lia. Qed.

(** X24.  The entry that the hook takes is the first key of the entry
    object in the order of [Object.keys]: the key written first when no
    key is an array index, and otherwise the array-index key of the least
    value, wherever it was written. *)
Theorem entryName_first_key b :
  (Forall (fun k => JS.is_array_index k = false) (entry_keys b) ->
   entryName b = head (entry_keys b)) /\
  (forall k, k ∈ entry_keys b -> JS.is_array_index k = true ->
     exists e, entryName b = Some e /\ e ∈ entry_keys b /\
               JS.is_array_index e = true /\ JS.index_le e k).
Proof.
  isolate. split.
  - intros H. unfold entryName. by rewrite ordered_keys_named.
  - intros k Hk Hi. unfold entryName, JS.ordered_keys.
    assert (Hin : k ∈ merge_sort JS.index_le (List.filter JS.is_array_index (entry_keys b)))
      by (rewrite merge_sort_Permutation; by apply elem_of_filter_bool).
    destruct (merge_sort JS.index_le (List.filter JS.is_array_index (entry_keys b)))
      as [|e l] eqn:El; [inversion Hin|].
    exists e. split; [reflexivity|].
    assert (He : e ∈ List.filter JS.is_array_index (entry_keys b))
      by (rewrite <- (merge_sort_Permutation JS.index_le), El; left).
    apply elem_of_filter_bool in He as [He1 He2]. repeat split; [done..|].
    apply (head_StronglySorted JS.index_le (e :: l)); [|reflexivity|exact Hin].
    rewrite <- El. apply StronglySorted_merge_sort; apply _.
Qed.

(** ** Nodes that are no declarations *)

Lemma forEach_collect_app l1 : forall l2 acc variables,
  forEach_collect l1 acc = Normal variables ->
  forEach_collect (l1 ++ l2) acc = forEach_collect l2 variables.
Proof.
  induction l1 as [|rule l1 IH]; intros l2 acc variables; simpl.
  - by intros [= <-].
  - destruct (collect acc rule) as [acc'|]; [apply IH|discriminate].
Qed.

(** X25.  When the tree holds a node without a [name], as a comment, a
    rule set or an import is, and only declarations before it, the
    extraction logs a [TypeError] and is rejected with it: nothing of the
    declarations read so far is returned. *)
Theorem parseLessVariables_node_without_name filePath text ds rule rest :
  readFileSync filePath = Some text ->
  less_parse text = Some {| rules := Some (map node_of ds ++ rule :: rest) |} ->
  name rule = no_name ->
  parseLessVariables filePath
  = ([ReadFile filePath; LessParse text;
      ConsoleError "Error parsing Less file:"
        (TypeError "Cannot read properties of undefined (reading 'slice')")],
     Abrupt (TypeError "Cannot read properties of undefined (reading 'slice')")).
Proof.
  intros Hr Hp Hn. unfold parseLessVariables, fs_readFileSync, less_parse_async.
  rewrite Hr. cbn. rewrite Hp. cbn.
  rewrite (forEach_collect_app _ _ _ _ (forEach_collect_declarations ds [])).
  cbn [forEach_collect]. unfold collect. rewrite Hn. reflexivity.
Qed.

End Plugin.

Arguments AD_string {LoaderContext} s.
Arguments AD_function {LoaderContext} f.
Arguments AD_closure {LoaderContext} options originData.
Arguments UseString {LoaderContext} s.
Arguments UseFunction {LoaderContext} source.
Arguments UseObject {LoaderContext} loader options.
Arguments use_single {LoaderContext} u.
Arguments use_array {LoaderContext} a.
Arguments additionalData {LoaderContext} l.
Arguments otherOptions {LoaderContext} l.
Arguments test {LoaderContext} r.
Arguments use {LoaderContext} r.
Arguments module_rules {LoaderContext} s.
Arguments arrays {LoaderContext} s.
Arguments regexps {LoaderContext} s.

(** ** A host with a few theme files *)

Module Example.

Definition decl (n v : string) : Declaration := {| declared := n; rendered := v |}.

(** The node of a comment: no [name], and a text for its [value]. *)
Definition comment : Node := {| name := no_name; value := value_without_toCSS |}.

(** The files of the host, by path. *)
Definition files : list (string * string) :=
  [("/app/src/theme/dark.less", "@primary-color: red; @my-color: green;");
   ("/app/src/theme/light.less", "@primary-color: blue;");
   ("/swap/src/theme/dark.less", "@a: red;");
   ("/swap/src/theme/light.less", "@b: blue;");
   ("/app/ab.less", "@a: red; @b: green;");
   ("/app/dup.less", "@a: red; @a: blue;");
   ("/app/proto.less", "@__proto__: red; @__proto__: blue;");
   ("/app/empty.less", "");
   ("/app/broken.less", "@a: ;;{");
   ("/app/comment.less", "// dark theme");
   ("/app/order.less", "@b: 0; @2: 0; @10: 0; @1: 0;")].

Definition readFileSync (path : string) : option string := JS.get files path.

(** What the parser makes of each text; any other text is a syntax error. *)
Definition trees : list (string * list Node) :=
  [("@primary-color: red; @my-color: green;",
    map node_of [decl "@primary-color" "red"; decl "@my-color" "green"]);
   ("@primary-color: blue;", map node_of [decl "@primary-color" "blue"]);
   ("@a: red;", map node_of [decl "@a" "red"]);
   ("@b: blue;", map node_of [decl "@b" "blue"]);
   ("@a: red; @b: green;", map node_of [decl "@a" "red"; decl "@b" "green"]);
   ("@a: red; @a: blue;", map node_of [decl "@a" "red"; decl "@a" "blue"]);
   ("@__proto__: red; @__proto__: blue;",
    map node_of [decl "@__proto__" "red"; decl "@__proto__" "blue"]);
   ("", []);
   ("// dark theme", [comment]);
   ("@b: 0; @2: 0; @10: 0; @1: 0;",
    map node_of [decl "@b" "0"; decl "@2" "0"; decl "@10" "0"; decl "@1" "0"])].

Definition less_parse (text : string) : option Root :=
  match find (fun entry => String.eqb (fst entry) text) trees with
  | Some (_, ds) => Some {| rules := Some ds |}
  | None => None
  end.

Definition path_resolve (from to : string) : string := from +:+ "/" +:+ to.

Definition require_resolve (request : string) : string := "/app/node_modules/" +:+ request.

Definition dirname : string := "/app/node_modules/css-theme-plugin/lib".

(** The default options in [/app], and the same with the root [/swap] and
    with a root that has no theme files. *)
Definition options : ThemePluginOptions := defaultOptions "/app".

Definition with_root (r : string) : ThemePluginOptions :=
  {| root := r;
     themeDir := themeDir options;
     darkFileName := darkFileName options;
     lightFileName := lightFileName options;
     themeClassPre := themeClassPre options;
     initTheme := initTheme options |}.

Definition block : string :=
  "@primary-color:~'var(--antd-theme-primary-color)';@my-color:~'var(--antd-theme-my-color)';".

(** What the patterns [\.less$] and [\.css$] do on ['index.less']: the
    first matches at index 5 and ends at 10, so a search that starts at 5
    or before finds it; the second never matches. *)
Definition less_pattern (i : nat) : option nat := if (i <=? 5)%nat then Some 10%nat else None.

Definition css_pattern (i : nat) : option nat := None.

(** [/\.less$/], [/\.css$/] and [/\.less$/g]. *)
Definition less_RegExp : RegExp :=
  {| global_or_sticky := false; lastIndex := 0; exec_from := less_pattern |}.

Definition css_RegExp : RegExp :=
  {| global_or_sticky := false; lastIndex := 0; exec_from := css_pattern |}.

Definition less_RegExp_global : RegExp :=
  {| global_or_sticky := true; lastIndex := 0; exec_from := less_pattern |}.

(** Two rules that share one array, a rule whose [use] is a string, and a
    rule for other files; the first three share the [RegExp] for Less
    files. *)
Definition store : Store unit :=
  {| module_rules :=
       [ {| test := test_RegExp 0; use := use_array 0 |};
         {| test := test_RegExp 0; use := use_single (Some (UseString "less-loader")) |};
         {| test := test_RegExp 0; use := use_array 0 |};
         {| test := test_RegExp 1; use := use_array 1 |} ];
     arrays :=
       [ [UseString "style-loader"; UseString "css-loader"; UseString "less-loader"];
         [UseString "style-loader"; UseString "css-loader"] ];
     regexps := [less_RegExp; css_RegExp] |}.

(** A rule without [use], and a rule whose [use] is an empty array. *)
Definition store_without_use : Store unit :=
  {| module_rules := [ {| test := test_RegExp 0; use := use_single None |} ];
     arrays := [];
     regexps := [less_RegExp] |}.

Definition store_empty_use : Store unit :=
  {| module_rules := [ {| test := test_RegExp 0; use := use_array 0 |} ];
     arrays := [[]];
     regexps := [less_RegExp] |}.

(** Three rules, each with an array of its own, that share one [RegExp]
    with the flag [g]. *)
Definition store_global_RegExp : Store unit :=
  {| module_rules :=
       [ {| test := test_RegExp 0; use := use_array 0 |};
         {| test := test_RegExp 0; use := use_array 1 |};
         {| test := test_RegExp 0; use := use_array 2 |} ];
     arrays := [ [UseString "less-loader"]; [UseString "less-loader"];
                 [UseString "less-loader"] ];
     regexps := [less_RegExp_global] |}.

(** What the extraction gives for the theme files of [/app]. *)
Definition themeVars : ThemeVars :=
  {| vars_light := [("primary-color", "blue")];
     vars_dark := [("primary-color", "red"); ("my-color", "green")] |}.

(** A build with one entry, its chunk and two assets, before the cache is
    filled; the same with a bundle that has no arrow function, and with a
    chunk of another name. *)
Definition build : Build :=
  {| entry_keys := ["main"];
     antdThemeCache := None;
     chunks := [ {| chunk_name := name_string "main";
                    chunk_files := ["main.css"; "main.js"] |} ];
     assets := [("main.css", ".foo{color:red}"); ("main.js", "/* app */(() => {run()})()")] |}.


Definition build_without_entry_chunk : Build :=
  {| entry_keys := ["main"];
     antdThemeCache := None;
     chunks := [ {| chunk_name := name_string "vendor"; chunk_files := ["vendor.js"] |};
                 {| chunk_name := name_undefined; chunk_files := ["0.js"] |} ];
     assets := [("vendor.js", "(()=>{})()"); ("0.js", "(()=>{})()")] |}.

(** Two import statements, each on a line of its own, and a rule set. *)
Definition import_lines : list (list ascii * list ascii) :=
  [ (JS.chars " 'a.less'", ["010"%char]);
    (JS.chars " 'b.less'", "010"%char :: JS.chars ".foo{color:red}") ].

(** An entry object whose second key is an array index. *)
Definition build_with_index_entry : Build :=
  {| entry_keys := ["main"; "0"];
     antdThemeCache := None;
     chunks := chunks build;
     assets := assets build |}.

End Example.

(** ** The statements at the example host *)

(** C1, amended, at the file [@a: red; @b: green;]. *)
Lemma parseLessVariables_one_entry_per_name_witness :
  completion (parseLessVariables Example.readFileSync Example.less_parse "/app/ab.less")
  = Normal [("a", "red"); ("b", "green")].
Proof.
  destruct (parseLessVariables_one_entry_per_name
              Example.readFileSync Example.less_parse
              "/app/ab.less" "@a: red; @b: green;"
              [Example.decl "@a" "red"; Example.decl "@b" "green"] eq_refl eq_refl)
    as (variables & Hc & _ & _ & _ & Hab).
  - repeat constructor; discriminate.
  - rewrite Hc. f_equal. apply Hab. reflexivity.
Defined.

(** C1 as stated fails where a name is declared twice: two declarations,
    one entry, and the first declaration's value is not in the map. *)
Lemma parseLessVariables_duplicate_counterexample :
  exists variables,
    completion (parseLessVariables Example.readFileSync Example.less_parse "/app/dup.less")
    = Normal variables /\
    ~ (length variables = length [Example.decl "@a" "red"; Example.decl "@a" "blue"] /\
       Forall (fun d => JS.get variables (key_of d) = Some (rendered d))
              [Example.decl "@a" "red"; Example.decl "@a" "blue"]).
Proof.
  exists [("a", "blue")]. split; [reflexivity|]. intros [Hlen _]. discriminate Hlen.
Qed.

(** C10 fails on the code for the name [__proto__]: a file that declares
    it twice resolves to the empty map, the last value is not kept. *)
Lemma parseLessVariables_proto_dropped :
  parseLessVariables Example.readFileSync Example.less_parse "/app/proto.less"
  = ([ReadFile "/app/proto.less"; LessParse "@__proto__: red; @__proto__: blue;"], Normal []).
Proof. reflexivity. Qed.

(** C7 at a missing file and at a file that does not parse. *)
Lemma parseLessVariables_rejects_witness :
  completion (parseLessVariables Example.readFileSync Example.less_parse "/app/missing.less")
  = Abrupt (FileReadError "/app/missing.less") /\
  completion (parseLessVariables Example.readFileSync Example.less_parse "/app/broken.less")
  = Abrupt (ParseError "@a: ;;{").
Proof.
  split.
  - rewrite (proj1 (parseLessVariables_rejects
                      Example.readFileSync Example.less_parse "/app/missing.less") eq_refl).
    reflexivity.
  - rewrite (proj2 (parseLessVariables_rejects
                      Example.readFileSync Example.less_parse "/app/broken.less")
                   "@a: ;;{" eq_refl eq_refl).
    reflexivity.
Defined.



(** C9 at a root without theme files. *)
Lemma theme_block_fails_with_either_variant_witness :
  exists e,
    completion (lessDefaultAddictionData Example.readFileSync Example.less_parse
                  Example.path_resolve true (Example.with_root "/none")) = Abrupt e /\
    completion (getLessAddictionData Example.readFileSync Example.less_parse
                  Example.path_resolve true unit (Example.with_root "/none")
                  (AD_string "") ".foo{color:red}" tt) = Abrupt e.
Proof.
  destruct (theme_block_fails_with_either_variant
              Example.readFileSync Example.less_parse Example.path_resolve true unit
              (Example.with_root "/none"))
    as (e & _ & _ & Hb & Hp).
  - left. exists (FileReadError "/none/src/theme/dark.less"). reflexivity.
  - exists e. split; [exact Hb|apply Hp].
Defined.

(** C2, amended, at the theme files of the example. *)
Lemma lessDefaultAddictionData_block_witness :
  completion (lessDefaultAddictionData Example.readFileSync Example.less_parse
                Example.path_resolve true Example.options)
  = Normal Example.block.
Proof.
  destruct (lessDefaultAddictionData_block
              Example.readFileSync Example.less_parse Example.path_resolve true
              Example.options
              [("primary-color", "red"); ("my-color", "green")]
              [("primary-color", "blue")] eq_refl eq_refl)
    as (indices & _ & _ & _ & _ & _ & Hex & _).
  apply Hex; reflexivity.
Defined.

(** C2 as stated fails where the light variant has a name that the dark
    one has not: the light variant's name comes first. *)
Lemma lessDefaultAddictionData_order_counterexample :
  completion (lessDefaultAddictionData Example.readFileSync Example.less_parse
                Example.path_resolve true (Example.with_root "/swap"))
  = Normal "@b:~'var(--antd-theme-b)';@a:~'var(--antd-theme-a)';" /\
  "@b:~'var(--antd-theme-b)';@a:~'var(--antd-theme-a)';"
  <> declarations "antd-theme" (dark_then_light [("a", "red")] [("b", "blue")]).
Proof.
  split; [reflexivity|]. intros H. discriminate H.
Qed.

(** C3, amended, at two imports on one line. *)
Lemma getLessAddictionData_after_imports_witness :
  completion (getLessAddictionData Example.readFileSync Example.less_parse
                Example.path_resolve true unit Example.options (AD_string "")
                "@import 'a.less';@import 'b.less';.foo{color:red}" tt)
  = Normal ("@import 'a.less';@import 'b.less';" +:+ Example.block +:+ ".foo{color:red}").
Proof.
  destruct (getLessAddictionData_after_imports
              Example.readFileSync Example.less_parse Example.path_resolve true unit
              Example.options (AD_string "")
              "@import 'a.less';@import 'b.less';.foo{color:red}" tt
              Example.block "@import 'a.less';@import 'b.less';.foo{color:red}"
              eq_refl eq_refl eq_refl eq_refl)
    as (out & Hc & _ & Hex & _).
  rewrite Hc. f_equal. apply Hex. reflexivity.
Defined.

(** C3 as stated fails at its own example: the block does not follow the
    first import. *)
Lemma getLessAddictionData_imports_counterexample :
  completion (getLessAddictionData Example.readFileSync Example.less_parse
                Example.path_resolve true unit Example.options (AD_string "")
                "@import 'a.less';@import 'b.less';.foo{color:red}" tt)
  <> Normal ("@import 'a.less';" +:+ Example.block +:+
             "@import 'b.less';" +:+ Example.block +:+ ".foo{color:red}").
Proof.
  vm_compute. intros H. discriminate H.
Qed.

(** C6, amended, at content without an import. *)
Lemma getLessAddictionData_prepends_witness :
  completion (getLessAddictionData Example.readFileSync Example.less_parse
                Example.path_resolve true unit Example.options (AD_string "")
                ".foo{color:red}" tt)
  = Normal (Example.block +:+ ".foo{color:red}") /\
  completion (getLessAddictionData Example.readFileSync Example.less_parse
                Example.path_resolve true unit Example.options (AD_string "@c: 1;")
                ".foo{color:red}" tt)
  = Normal (Example.block +:+ "@c: 1;" +:+ ".foo{color:red}") /\
  completion (getLessAddictionData Example.readFileSync Example.less_parse
                Example.path_resolve true unit Example.options
                (AD_function (fun content _ => Normal ("@c: 1;" +:+ content)))
                ".foo{color:red}" tt)
  = Normal (Example.block +:+ "@c: 1;.foo{color:red}").
Proof.
  destruct (getLessAddictionData_prepends
              Example.readFileSync Example.less_parse Example.path_resolve true unit
              Example.options ".foo{color:red}" tt Example.block eq_refl)
    as (Hs & Hf & Hex).
  split; [exact (Hex eq_refl)|]. split.
  - exact (Hs "@c: 1;" eq_refl).
  - exact (Hf (fun content _ => Normal ("@c: 1;" +:+ content)) "@c: 1;.foo{color:red}"
              eq_refl eq_refl).
Defined.

(** C6 as stated fails where the content begins with an import: the block
    comes after the import, not first. *)
Lemma getLessAddictionData_prepend_counterexample :
  completion (getLessAddictionData Example.readFileSync Example.less_parse
                Example.path_resolve true unit Example.options (AD_string "")
                "@import 'a.less';.foo{color:red}" tt)
  = Normal ("@import 'a.less';" +:+ Example.block +:+ ".foo{color:red}") /\
  "@import 'a.less';" +:+ Example.block +:+ ".foo{color:red}"
  <> Example.block +:+ "" +:+ "@import 'a.less';.foo{color:red}".
Proof.
  split; [reflexivity|]. vm_compute. intros H. discriminate H.
Qed.

(** C4 at a store with a shared array. *)
Lemma apply_environment_idempotent_witness :
  apply_environment Example.path_resolve unit Example.require_resolve Example.dirname
    Example.options
    (fst (apply_environment Example.path_resolve unit Example.require_resolve
            Example.dirname Example.options Example.store))
  = apply_environment Example.path_resolve unit Example.require_resolve Example.dirname
      Example.options Example.store.
Proof.
  apply (apply_environment_idempotent
           Example.path_resolve unit Example.require_resolve Example.dirname
           Example.options Example.store).
  - reflexivity.
  - repeat constructor.
Defined.

(** C4 as stated fails where rules share a [RegExp] with the flag [g]: of
    three such rules the first run rewrites the first and the third and
    leaves the second as it is, and the second run rewrites the second. *)
Lemma apply_environment_global_RegExp_counterexample :
  arrays (fst (apply_environment Example.path_resolve unit Example.require_resolve
                 Example.dirname Example.options Example.store_global_RegExp)) !! 1
  = Some [UseString "less-loader"] /\
  arrays (fst (apply_environment Example.path_resolve unit Example.require_resolve
                 Example.dirname Example.options
                 (fst (apply_environment Example.path_resolve unit Example.require_resolve
                         Example.dirname Example.options Example.store_global_RegExp)))) !! 1
  = Some [loader Example.path_resolve unit Example.dirname Example.options;
          UseObject (Some "/app/node_modules/less-loader")
            (Some {| additionalData := Some (AD_closure Example.options (AD_string ""));
                     otherOptions := [] |})] /\
  fst (apply_environment Example.path_resolve unit Example.require_resolve
         Example.dirname Example.options
         (fst (apply_environment Example.path_resolve unit Example.require_resolve
                 Example.dirname Example.options Example.store_global_RegExp)))
  <> fst (apply_environment Example.path_resolve unit Example.require_resolve
            Example.dirname Example.options Example.store_global_RegExp).
Proof.
  split; [reflexivity|]. split; [reflexivity|].
  intros H. apply (f_equal (fun st => arrays st !! 1)) in H. discriminate H.
Qed.

(** C5 at the first rule of the example store. *)
Lemma rewriteRule_array_witness :
  arrays (fst (rewriteRule Example.path_resolve unit Example.require_resolve Example.dirname
                 Example.options Example.store 0)) !! 0
  = Some [UseString "style-loader"; UseString "css-loader";
          loader Example.path_resolve unit Example.dirname Example.options;
          UseObject (Some "/app/node_modules/less-loader")
            (Some {| additionalData := Some (AD_closure Example.options (AD_string ""));
                     otherOptions := [] |})].
Proof.
  destruct (rewriteRule_array
              Example.path_resolve unit Example.require_resolve Example.dirname
              Example.options Example.store 0
              {| test := test_RegExp 0; use := use_array 0 |} 0
              [UseString "style-loader"; UseString "css-loader"] (UseString "less-loader")
              eq_refl eq_refl eq_refl eq_refl)
    as (wrapped & Hw & Hstep).
  rewrite Hstep. injection Hw as <-. reflexivity.
Defined.

(** C5 as stated fails at a qualifying rule whose array is empty: the
    array does not hold the injected step, and the callback throws and
    leaves it empty. *)
Lemma rewriteRule_array_empty_counterexample :
  fst (lessRules unit Example.store_empty_use) = [0%nat] /\
  module_rules Example.store_empty_use !! 0
  = Some {| test := test_RegExp 0; use := use_array 0 |} /\
  arrays Example.store_empty_use !! 0 = Some [] /\
  existsb (is_injected unit) [] = false /\
  rewriteRule Example.path_resolve unit Example.require_resolve Example.dirname
    Example.options Example.store_empty_use 0
  = (Example.store_empty_use,
     Abrupt (TypeError "Cannot read properties of undefined (reading 'loader')")) /\
  ~ (exists wrapped,
        arrays (fst (rewriteRule Example.path_resolve unit Example.require_resolve
                       Example.dirname Example.options Example.store_empty_use 0)) !! 0
        = Some ([] ++ [loader Example.path_resolve unit Example.dirname Example.options;
                       wrapped])).
Proof.
  repeat (split; [reflexivity|]). intros [wrapped H]. discriminate H.
Qed.

(** X1 at the file [@a: red; @a: blue;]. *)
Lemma parseLessVariables_last_declaration_wins_witness :
  exists variables,
    completion (parseLessVariables Example.readFileSync Example.less_parse "/app/dup.less")
    = Normal variables /\
    JS.get variables "a" = Some "blue".
Proof.
  destruct (parseLessVariables_last_declaration_wins
              Example.readFileSync Example.less_parse "/app/dup.less" "@a: red; @a: blue;"
              [Example.decl "@a" "red"] (Example.decl "@a" "blue") [] eq_refl eq_refl)
    as (variables & Hc & Hg & _).
  - discriminate.
  - constructor.
  - exists variables. split; [exact Hc|exact Hg].
Defined.

(** X2 at the second rule of the example store. *)
Lemma rewriteRule_string_witness :
  fst (rewriteRule Example.path_resolve unit Example.require_resolve Example.dirname
         Example.options Example.store 1)
  = {| module_rules :=
         [ {| test := test_RegExp 0; use := use_array 0 |};
           {| test := test_RegExp 0; use := use_array 2 |};
           {| test := test_RegExp 0; use := use_array 0 |};
           {| test := test_RegExp 1; use := use_array 1 |} ];
       arrays :=
         arrays Example.store ++
         [[loader Example.path_resolve unit Example.dirname Example.options;
           UseObject (Some "/app/node_modules/less-loader")
             (Some {| additionalData := Some (AD_closure Example.options (AD_string ""));
                      otherOptions := [] |})]];
       regexps := regexps Example.store |}.
Proof.
  destruct (rewriteRule_string
              Example.path_resolve unit Example.require_resolve Example.dirname
              Example.options Example.store 1
              {| test := test_RegExp 0; use := use_single (Some (UseString "less-loader")) |}
              "less-loader" eq_refl eq_refl eq_refl)
    as (wrapped & Hw & Hstep).
  rewrite Hstep. injection Hw as <-. reflexivity.
Defined.

(** X3 at a rule without [use]. *)
Lemma rewriteRule_untouched_witness :
  rewriteRule Example.path_resolve unit Example.require_resolve Example.dirname
    Example.options Example.store_without_use 0
  = (Example.store_without_use, Normal tt).
Proof.
  apply (rewriteRule_untouched
           Example.path_resolve unit Example.require_resolve Example.dirname
           Example.options Example.store_without_use 0
           {| test := test_RegExp 0; use := use_single None |} None eq_refl eq_refl).
  intros s H. discriminate H.
Defined.

(** X4 at a rule with an empty array. *)
Lemma rewriteRule_empty_array_witness :
  snd (rewriteRule Example.path_resolve unit Example.require_resolve Example.dirname
         Example.options Example.store_empty_use 0)
  = Abrupt (TypeError "Cannot read properties of undefined (reading 'loader')").
Proof.
  rewrite (rewriteRule_empty_array
             Example.path_resolve unit Example.require_resolve Example.dirname
             Example.options Example.store_empty_use 0
             {| test := test_RegExp 0; use := use_array 0 |} 0 eq_refl eq_refl eq_refl).
  reflexivity.
Defined.

(** X5 at an import without its semicolon. *)
Lemma getLessAddictionData_import_without_semicolon_witness :
  completion (getLessAddictionData Example.readFileSync Example.less_parse
                Example.path_resolve true unit Example.options (AD_string "")
                "@import 'a.less'" tt)
  = Normal "@import 'a.less'".
Proof.
  apply (getLessAddictionData_import_without_semicolon
           Example.readFileSync Example.less_parse Example.path_resolve true unit
           Example.options (AD_string "") "@import 'a.less'" tt Example.block
           "@import 'a.less'" eq_refl eq_refl eq_refl eq_refl).
Defined.

(** X6 at the file [@a: red; @b: green;]. *)
Lemma parseLessVariables_never_proto_witness :
  "__proto__" ∉ map fst [("a", "red"); ("b", "green")].
Proof.
  apply (parseLessVariables_never_proto
           Example.readFileSync Example.less_parse "/app/ab.less"
           [("a", "red"); ("b", "green")] eq_refl).
Defined.

(** X7 at a file that declares [@b], [@2], [@10] and [@1] in this order. *)
Lemma parseLessVariables_first_declaration_order_witness :
  exists variables,
    completion (parseLessVariables Example.readFileSync Example.less_parse "/app/order.less")
    = Normal variables /\
    JS.keys variables = ["1"; "2"; "10"; "b"].
Proof.
  apply (parseLessVariables_first_declaration_order
           Example.readFileSync Example.less_parse
           "/app/order.less" "@b: 0; @2: 0; @10: 0; @1: 0;"
           [Example.decl "@b" "0"; Example.decl "@2" "0"; Example.decl "@10" "0";
            Example.decl "@1" "0"] eq_refl eq_refl).
Defined.

(** X10 at a user function that is rejected. *)
Lemma getLessAddictionData_user_function_rejected_witness :
  completion (getLessAddictionData Example.readFileSync Example.less_parse
                Example.path_resolve true unit Example.options
                (AD_function (fun _ _ => Abrupt (TypeError "no data")))
                ".foo{color:red}" tt)
  = Abrupt (TypeError "no data").
Proof.
  apply (getLessAddictionData_user_function_rejected
           Example.readFileSync Example.less_parse Example.path_resolve true unit
           Example.options (fun _ _ => Abrupt (TypeError "no data"))
           ".foo{color:red}" tt Example.block (TypeError "no data") eq_refl eq_refl).
Defined.

(** X11 at two imports on two lines. *)
Lemma getLessAddictionData_import_lines_witness :
  completion (getLessAddictionData Example.readFileSync Example.less_parse
                Example.path_resolve true unit Example.options (AD_string "")
                (JS.str (concat (map (import_line []) Example.import_lines))) tt)
  = Normal (JS.str (concat (map (import_line (JS.chars Example.block))
                                Example.import_lines))).
Proof.
  apply (getLessAddictionData_import_lines
           Example.readFileSync Example.less_parse Example.path_resolve true unit
           Example.options (AD_string "")
           (JS.str (concat (map (import_line []) Example.import_lines))) tt
           Example.block
           (JS.str (concat (map (import_line []) Example.import_lines)))
           (JS.chars " 'a.less'", ["010"%char])
           [(JS.chars " 'b.less'", "010"%char :: JS.chars ".foo{color:red}")]
           eq_refl eq_refl eq_refl).
  - repeat constructor; eexists _, _; split; reflexivity.
  - reflexivity.
Defined.

(** X12 at a step with a string of the user and one other option. *)
Lemma formatLessLoader_wraps_user_data_witness :
  exists wrapped,
    formatLessLoader unit Example.require_resolve Example.options
      (Some (UseObject (Some "/app/loaders/less.js")
               (Some {| additionalData := Some (AD_string "@c: 1;");
                        otherOptions := [("sourceMap", "true")] |})))
    = Normal (UseObject (Some "/app/loaders/less.js")
                (Some {| additionalData := Some wrapped;
                         otherOptions := [("sourceMap", "true")] |})) /\
    completion (originContent Example.readFileSync Example.less_parse Example.path_resolve
                  true unit wrapped ".foo{color:red}" tt)
    = Normal (Example.block +:+ "@c: 1;.foo{color:red}").
Proof.
  apply (formatLessLoader_wraps_user_data
           Example.readFileSync Example.less_parse Example.path_resolve true unit
           Example.require_resolve Example.options (Some "/app/loaders/less.js")
           {| additionalData := Some (AD_string "@c: 1;");
              otherOptions := [("sourceMap", "true")] |}
           ".foo{color:red}" tt Example.block "@c: 1;.foo{color:red}" eq_refl eq_refl).
Defined.

(** X13 at [less-loader] with a query. *)
Lemma formatLessLoader_string_witness :
  formatLessLoader unit Example.require_resolve Example.options
    (Some (UseString "less-loader?sourceMap"))
  = Normal (UseString "less-loader?sourceMap").
Proof.
  apply (proj2 (formatLessLoader_string
                  Example.readFileSync Example.less_parse Example.path_resolve true unit
                  Example.require_resolve Example.options "less-loader?sourceMap")
               eq_refl).
Defined.

(** X14 at the example store: the rule for other files and its array. *)
Lemma apply_environment_keeps_other_rules_witness :
  module_rules (fst (apply_environment Example.path_resolve unit Example.require_resolve
                       Example.dirname Example.options Example.store)) !! 3
  = Some {| test := test_RegExp 1; use := use_array 1 |} /\
  arrays (fst (apply_environment Example.path_resolve unit Example.require_resolve
                 Example.dirname Example.options Example.store)) !! 1
  = Some [UseString "style-loader"; UseString "css-loader"].
Proof.
  assert (Hsel : fst (lessRules unit Example.store) = [0; 1; 2]%nat) by reflexivity.
  destruct (proj2 (apply_environment_keeps_other_rules
                     Example.path_resolve unit Example.require_resolve Example.dirname
                     Example.options Example.store _ _ (surjective_pairing _))
                  3%nat {| test := test_RegExp 1; use := use_array 1 |} eq_refl)
    as [Hrule Harray].
  - rewrite Hsel. intros H.
    repeat (apply elem_of_cons in H as [H|H]; [discriminate H|]). inversion H.
  - split; [exact Hrule|]. apply (Harray 1%nat _ eq_refl eq_refl).
    intros i ri Hi Hr. rewrite Hsel in Hi.
    repeat (apply elem_of_cons in Hi as [->|Hi]; [injection Hr as <-; discriminate|]).
    inversion Hi.
Defined.

(** X15 at the example store: the array of the rule for other files. *)
Lemma apply_environment_keeps_other_arrays_witness :
  arrays (fst (apply_environment Example.path_resolve unit Example.require_resolve
                 Example.dirname Example.options Example.store)) !! 1
  = Some [UseString "style-loader"; UseString "css-loader"].
Proof.
  apply (apply_environment_keeps_other_arrays
           Example.path_resolve unit Example.require_resolve Example.dirname
           Example.options Example.store _ _ 1
           [UseString "style-loader"; UseString "css-loader"]
           (surjective_pairing _) eq_refl).
  intros j r Hj Hr.
  assert (Hsel : fst (lessRules unit Example.store) = [0; 1; 2]%nat) by reflexivity.
  rewrite Hsel in Hj.
  repeat (apply elem_of_cons in Hj as [->|Hj]; [injection Hr as <-; discriminate|]).
  inversion Hj.
Defined.

(** X16 at the example store: the rule whose [use] was a string. *)
Lemma apply_environment_all_done_witness :
  exists items,
    arrays (fst (apply_environment Example.path_resolve unit Example.require_resolve
                   Example.dirname Example.options Example.store)) !! 2
    = Some items /\
    existsb (is_injected unit) items = true.
Proof.
  apply (apply_environment_all_done
           Example.path_resolve unit Example.require_resolve Example.dirname
           Example.options Example.store
           (fst (apply_environment Example.path_resolve unit Example.require_resolve
                   Example.dirname Example.options Example.store))
           1 {| test := test_RegExp 0; use := use_array 2 |}
           eq_refl eq_refl eq_refl).
  assert (Hsel : fst (lessRules unit Example.store) = [0; 1; 2]%nat) by reflexivity.
  rewrite Hsel. right. left.
Defined.

(** X17 at the example build. *)
Lemma processAssets_frame_witness :
  map fst (assets (fst (snd (processAssets Example.readFileSync Example.less_parse
                               Example.path_resolve true Example.options Example.build))))
  = ["main.css"; "main.js"].
Proof.
  apply (processAssets_frame
           Example.readFileSync Example.less_parse Example.path_resolve true
           Example.options Example.build _ _ _ eq_refl).
Defined.

(** X18 at the example build: the asset that changes is [main.js]. *)
Lemma processAssets_changes_entry_only_witness :
  exists chunkItem,
    find (name_is (entryName Example.build)) (chunks Example.build) = Some chunkItem /\
    find (fun item => JS.ends_with (JS.chars "js") (JS.chars item)) (chunk_files chunkItem)
    = Some "main.js".
Proof.
  apply (processAssets_changes_entry_only
           Example.readFileSync Example.less_parse Example.path_resolve true
           Example.options Example.build _ _ _ "main.js" eq_refl).
  intros H. vm_compute in H. discriminate H.
Defined.

(** X19 at the example build: the second run reads nothing. *)
Lemma processAssets_reads_theme_once_witness :
  fst (processAssets Example.readFileSync Example.less_parse Example.path_resolve true
         Example.options Example.build)
  = [ReadFile "/app/src/theme/dark.less"; LessParse "@primary-color: red; @my-color: green;";
     ReadFile "/app/src/theme/light.less"; LessParse "@primary-color: blue;"] /\
  fst (processAssets Example.readFileSync Example.less_parse Example.path_resolve true
         Example.options
         (fst (snd (processAssets Example.readFileSync Example.less_parse
                      Example.path_resolve true Example.options Example.build))))
  = [].
Proof.
  split; [reflexivity|].
  apply (processAssets_reads_theme_once
           Example.readFileSync Example.less_parse Example.path_resolve true
           Example.options Example.build (cache_vars Example.themeVars) _ _ _
           eq_refl eq_refl).
Defined.

(** X20 at a root without theme files. *)
Lemma processAssets_extraction_rejected_witness :
  snd (processAssets Example.readFileSync Example.less_parse Example.path_resolve true
         (Example.with_root "/none") Example.build)
  = (Example.build, rejected (FileReadError "/none/src/theme/dark.less")).
Proof.
  rewrite (proj1 (processAssets_extraction_rejected
                    Example.readFileSync Example.less_parse Example.path_resolve true
                    (Example.with_root "/none") Example.build
                    (FileReadError "/none/src/theme/dark.less") eq_refl eq_refl)).
  reflexivity.
Defined.

(** X21 at a build whose chunks have other names. *)
Lemma processAssets_entry_not_found_witness :
  snd (snd (processAssets Example.readFileSync Example.less_parse Example.path_resolve true
              Example.options Example.build_without_entry_chunk))
  = rejected_entry_not_found.
Proof.
  apply (processAssets_entry_not_found
           Example.readFileSync Example.less_parse Example.path_resolve true
           Example.options Example.build_without_entry_chunk
           (cache_vars Example.themeVars) "main" [] eq_refl eq_refl).
  - repeat constructor.
  - repeat constructor; discriminate.
Defined.


(** X23 at the example build. *)
Lemma processAssets_splices_script_witness :
  JS.get (assets (fst (snd (processAssets Example.readFileSync Example.less_parse
                              Example.path_resolve true Example.options Example.build))))
         "main.js"
  = Some (JS.str (JS.chars "/* app */" ++ JS.chars "(() => {"
                  ++ JS.chars (scriptContent Example.options (cache_vars Example.themeVars))
                  ++ JS.chars "run()})()")).
Proof.
  apply (processAssets_splices_script
           Example.readFileSync Example.less_parse Example.path_resolve true
           Example.options Example.build (cache_vars Example.themeVars)
           {| chunk_name := name_string "main"; chunk_files := ["main.css"; "main.js"] |}
           "main.js" "/* app */(() => {run()})()"
           (JS.chars "/* app */") [] [] [" "%char] [" "%char] (JS.chars "run()})()")
           eq_refl eq_refl eq_refl eq_refl eq_refl eq_refl eq_refl eq_refl eq_refl eq_refl
           eq_refl).
Defined.

(** X24 at an entry object written as [main] and [0]. *)
Lemma entryName_first_key_witness :
  exists e, entryName Example.build_with_index_entry = Some e /\
            e ∈ ["main"; "0"] /\ JS.is_array_index e = true /\ JS.index_le e "0".
Proof.
  apply (proj2 (entryName_first_key Example.build_with_index_entry) "0").
  - right. left.
  - reflexivity.
Defined.

(** X25 at the file that holds a comment. *)
Lemma parseLessVariables_node_without_name_witness :
  completion (parseLessVariables Example.readFileSync Example.less_parse "/app/comment.less")
  = Abrupt (TypeError "Cannot read properties of undefined (reading 'slice')").
Proof.
  rewrite (parseLessVariables_node_without_name
             Example.readFileSync Example.less_parse
             "/app/comment.less" "// dark theme" [] Example.comment [] eq_refl eq_refl eq_refl).
  reflexivity.
Defined.
